(** * exatomic: exponent generation, orbital evaluators and field attachment

    A shallow embedding of
    - [exatomic/algorithms/basis.py]   ([cartesian_gtf_exponents]),
    - [exatomic/algorithms/orbital.py] ([_setup_orbital], [_teardown_orbital],
      [add_molecular_orbitals], [add_density], [add_orb_ang_mom]),
    - [exatomic/universe.py]           ([Universe.frame], [Universe.append_field]).

    Python exceptions are values of [exn]; a computation that may raise
    returns [result].  Stateful code is written in a small state-and-error
    monad over a [world] that holds the universe, the lines written to
    standard output and the log of calls made to collaborators. *)

From stdpp Require Import base tactics option list strings numbers sorting pretty gmap.

Open Scope string_scope.

(** ** Exceptions and fallible results *)

Inductive exn_class :=
  | ValueError | IndexError | AssertionError
  | AttributeError | KeyError | TypeError | MemoryError
  | PlainException.                       (* the builtin [Exception] *)

Record exn := Exn { exn_cls : exn_class; exn_msg : string }.

Inductive result (A : Type) :=
  | Ok (a : A)
  | Raise (e : exn).
Arguments Ok {A} a.
Arguments Raise {A} e.

#[global] Instance exn_class_eq_dec : EqDecision exn_class.
Proof. solve_decision. Defined.

(** [for x in xs: body] over a state [S], stopping at the first exception. *)
Fixpoint for_each {A S : Type} (xs : list A) (body : A → S → result S) (s : S)
  : result S :=
  match xs with
  | [] => Ok s
  | x :: xs' =>
      match body x s with
      | Ok s' => for_each xs' body s'
      | Raise e => Raise e
      end
  end.

(** Python's [range(m)] for a non-negative [m]. *)
Definition range (m : nat) : list nat := seq 0 m.

(** ** basis.py *)

Module Basis.

(** A row [[i, j, k]] of the [(n, 3)] integer array. *)
Definition triple : Type := nat * nat * nat.

(** The local state of [cartesian_gtf_exponents]: the array [values]
    (a cell of [np.empty] is [None] until it is written) and the row
    counter [h]. *)
Record gen_state := GenState { values : list (option triple); h : nat }.

(** [values[h] = [i, j, k]; h += 1].  numpy raises [IndexError] when [h]
    is not a row of the array. *)
Definition store (r : triple) (st : gen_state) : result gen_state :=
  if decide (h st < length (values st))
  then Ok (GenState (<[h st := Some r]> (values st)) (S (h st)))
  else Raise (Exn IndexError "index is out of bounds for axis 0").

(** The angular momentum order [l] is a non-negative integer; the entries
    written are bounded by [l] (see [exponents_bounded]), so the [int64]
    cells never wrap. *)
Definition cartesian_gtf_exponents (l : nat) : result (list (option triple)) :=
  let m := l + 1 in
  let n := ((m + 1) * m) `div` 2 in
  let values0 := replicate n None in
  match
    for_each (range m) (λ i,
      for_each (range m) (λ j,
        for_each (range m) (λ k st,
          if decide (i + j + k = l) then store (i, j, k) st else Ok st)))
      (GenState values0 0)
  with
  | Ok st => Ok (values st)
  | Raise e => Raise e
  end.

(** Ascending order on rows: by [i], then [j], then [k]. *)
Definition lex_lt (a b : triple) : Prop :=
  a.1.1 < b.1.1 ∨
  (a.1.1 = b.1.1 ∧ (a.1.2 < b.1.2 ∨ (a.1.2 = b.1.2 ∧ a.2 < b.2))).

(** The rows in the order the three loops visit them. *)
Definition visited (l : nat) : list triple :=
  i ← range (l + 1); j ← range (l + 1); k ← range (l + 1);
  if decide (i + j + k = l) then [(i, j, k)] else [].

(** The same rows in closed form: [k] is determined by [i] and [j]. *)
Definition triangle (l : nat) : list triple :=
  i ← range (l + 1); (λ j, (i, j, l - i - j)) <$> range (l + 1 - i).

End Basis.

(** ** The data of the evaluators *)

Section Evaluators.

(** The floating-point numbers of the arrays, with the operations the
    evaluators use; [isclose0 v] is [np.isclose(v, 0)]. *)
Context {F : Type}.
Variable fzero fone : F.
Variable fadd fmul : F → F → F.
Variable isclose0 : F → bool.

Definition array : Type := list F.
Definition matrix : Type := list (list F).

(** One row of the field-parameter table: origin, spacing, point counts
    and the frame tag. *)
Record GridSpec := mkGridSpec {
  ox : F; oy : F; oz : F;
  dxi : F; dyj : F; dzk : F;
  nx : nat; ny : nat; nz : nat;
  gframe : Z }.

(** An [AtomicField]: the table of grid metadata, one row per field, and
    the list [field_values] of value arrays. *)
Record Field := mkField {
  fdims : list GridSpec;
  field_values : list array }.

(** A row of the atom table. *)
Record AtomRow := mkAtomRow {
  aframe : Z; alabel : Z; asymbol : string; ax : F; ay : F; az : F }.

(** The frame table, through its index. *)
Record FrameTable := mkFrameTable { findex : list Z }.

(** The orbital table: the index labels and the named columns, read by
    position. *)
Record OrbitalTable := mkOrbitalTable {
  oindex : list nat;
  ocolumns : list (string * array) }.

(** The attribute [_field] of an instance: absent from [__dict__], bound
    to [None], or bound to a field. *)
Inductive field_slot :=
  | Missing
  | IsNone
  | Holds (f : Field).

Record Universe := mkUniverse {
  _frame : option FrameTable;
  _atom : option (list AtomRow);
  _field : field_slot;
  _traits_need_update : bool;
  orbital : OrbitalTable;
  momatrix_columns : list string }.

Definition set_frame (fr : option FrameTable) (u : Universe) : Universe :=
  mkUniverse fr (_atom u) (_field u) (_traits_need_update u) (orbital u)
    (momatrix_columns u).
Definition set_field (fl : field_slot) (u : Universe) : Universe :=
  mkUniverse (_frame u) (_atom u) fl (_traits_need_update u) (orbital u)
    (momatrix_columns u).
Definition set_traits_need_update (b : bool) (u : Universe) : Universe :=
  mkUniverse (_frame u) (_atom u) (_field u) b (orbital u)
    (momatrix_columns u).

(** The arguments of one orbital evaluation:
    [(len(x), bvs, vector, mocoefs)]. *)
Record orb_args := mkOrbArgs {
  oa_npts : nat; oa_bvs : matrix; oa_vector : list nat; oa_coefs : matrix }.

(** ** Collaborators

    [orbital_util], the basis-function object, the coefficient table and
    the pieces of [exa.Container] are not part of the sources modelled
    here.  Those whose behaviour no statement below depends on are taken
    as parameters: functions of the universe and of their arguments that
    return or raise.  They read the universe and do not change it. *)
Record collaborators := mkCollab {
  len_basis_functions : Universe → result nat;
  irrep_basis_count : Universe → Z → result nat;
  _determine_vector : Universe → option (list nat) → option Z → result (list nat);
  _determine_fps : Universe → option (list GridSpec) → nat → result (list GridSpec);
  numerical_grid_from_field_params : list GridSpec → result (array * array * array);
  bf_evaluate : Universe → array → array → array → option Z → bool → result matrix;
  bf_evaluate_diff : Universe → array → array → array → string → bool → result matrix;
  momatrix_square : Universe → string → option Z → result matrix;
  _compute_orbitals : orb_args → result matrix;
  _compute_orbitals_nojit : orb_args → result matrix;
  _compute_current_density :
    matrix → matrix → matrix → matrix → matrix → matrix → array → bool →
    result (array * array * array);
  _compute_orb_ang_mom :
    array → array → array → array → array → array → matrix → result matrix;
  container_is : Universe → string → bool;
  minimal_frame : option (list AtomRow) → result FrameTable;
  _reconstruct_field : Field → option (list array) → result (option Field) }.

Variable C : collaborators.

(** ** The world and the monad of the evaluators *)

(** A line written to standard output.  Formatted numbers are kept as
    arguments. *)
Inductive line :=
  | Text (s : string)
  | EvaluatingBasis (nbf : nat)
  | TimingCompute (kind : string) (seconds : nat)
  | TimingGrid (seconds : nat)
  | TimingCurrent (seconds : nat)
  | ShapeDtype (rows cols : nat).

(** A call to a collaborator or to the container, as it is logged. *)
Inductive call :=
  | CallLenBasis
  | CallIrrepCount (irrep : Z)
  | CallDetermineVector
  | CallDetermineFps (norb : nat)
  | CallGrid
  | CallEvaluate (irrep : option Z) (verbose : bool)
  | CallEvaluateDiff (cart : string) (verbose : bool)
  | CallCheckColumn (table : string) (key : option string)
  | CallSquare (column : string) (irrep : option Z)
  | CallComputeOrbitals (a : orb_args)
  | CallComputeOrbitalsNojit (a : orb_args)
  | CallComputeDensity
  | CallCurrentDensity
  | CallOrbAngMom
  | CallMakeField
  | CallAddField.

Record world := mkWorld {
  uni : Universe;          (* the container passed as [uni] *)
  out : list line;         (* standard output, oldest line first *)
  log : list call;         (* calls made so far, oldest first *)
  clock : nat }.           (* what [datetime.now()] returns next *)

Definition M (A : Type) : Type := world → result A * world.

Definition ret {A} (a : A) : M A := λ w, (Ok a, w).
Definition raise {A} (e : exn) : M A := λ w, (Raise e, w).
Definition bind {A B} (m : M A) (k : A → M B) : M B :=
  λ w, match m w with
       | (Ok a, w') => k a w'
       | (Raise e, w') => (Raise e, w')
       end.

#[local] Notation "x <- m ;; k" := (bind m (λ x, k))
  (at level 100, m at next level, right associativity).
#[local] Notation "m ;;; k" := (bind m (λ _, k))
  (at level 100, right associativity).

(** [try: m  except (classes) as e: handler e]. *)
Definition try_except {A} (m : M A) (handled : exn_class → bool)
  (handler : exn → M A) : M A :=
  λ w, match m w with
       | (Ok a, w') => (Ok a, w')
       | (Raise e, w') =>
           if handled (exn_cls e) then handler e w' else (Raise e, w')
       end.

Definition print (l : line) : M unit :=
  λ w, (Ok tt, mkWorld (uni w) (out w ++ [l]) (log w) (clock w)).
Definition when (b : bool) (m : M unit) : M unit := if b then m else ret tt.
Definition datetime_now : M nat :=
  λ w, (Ok (clock w), mkWorld (uni w) (out w) (log w) (S (clock w))).
Definition get_uni : M Universe := λ w, (Ok (uni w), w).
Definition modify_uni (f : Universe → Universe) : M unit :=
  λ w, (Ok tt, mkWorld (f (uni w)) (out w) (log w) (clock w)).
(** The outcome [r] of a pure computation. *)
Definition lift {A} (r : result A) : M A := λ w, (r, w).
(** A logged call whose outcome is [r]. *)
Definition called {A} (c : call) (r : result A) : M A :=
  λ w, (r, mkWorld (uni w) (out w) (log w ++ [c]) (clock w)).

(** ** Helpers of [orbital_util] and of the container, after the spec *)

Definition table_columns (u : Universe) (table : string) : list string :=
  if decide (table = "orbital") then (ocolumns (orbital u)).*1
  else if decide (table = "current_momatrix") then momatrix_columns u
  else [].

Definition default_column (table : string) : string :=
  if decide (table = "orbital") then "occupation" else "coef".

(** Modelled from the spec: [_check_column] of [orbital_util], the
    "check column exists, else default" lookup: an omitted name is mapped
    to the default of the table, and the column has to exist.  What
    happens for a named column that does not exist is not said; it is an
    error here. *)
Definition _check_column (u : Universe) (table : string) (key : option string)
  : result string :=
  let col := default (default_column table) key in
  if decide (col ∈ table_columns u table) then Ok col
  else Raise (Exn PlainException ("column not in uni." ++ table)).

(** Modelled from the spec: [_make_field] of [orbital_util]: packages the
    computed arrays with the grid metadata into a field. *)
Definition _make_field (arrays : list array) (fps : list GridSpec) : Field :=
  mkField fps arrays.

(** Modelled from the spec: [_compute_density] of [orbital_util], without
    normalisation: at each grid point the sum over the orbitals of
    [occupation[o] * orbital_value[point, o]**2]; [ovs] has one row per
    grid point. *)
Definition _compute_density (ovs : matrix) (occ : array) : array :=
  (λ row, foldr fadd fzero (zip_with (λ o v, fmul o (fmul v v)) occ row)) <$> ovs.

(** Two fields collected into one: value lists and metadata rows are
    concatenated, nothing is merged numerically. *)
Definition concat_fields (f0 f1 : Field) : Field :=
  mkField (fdims f0 ++ fdims f1) (field_values f0 ++ field_values f1).

(** Modelled from the spec: [Universe.add_field], which the evaluators
    call and which is not in [universe.py]: marks the display state as
    needing refresh; sets the field if none is attached yet, and
    otherwise collects the two. *)
Definition add_field (field : Field) : M unit :=
  modify_uni (set_traits_need_update true) ;;;
  u <- get_uni ;;
  match _field u with
  | Holds f0 => modify_uni (set_field (Holds (concat_fields f0 field)))
  | Missing | IsNone => modify_uni (set_field (Holds field))
  end.

(** ** universe.py *)

(** [self._frame = minimal_frame(self.atom)] *)
Definition compute_minimal_frame : M unit :=
  u <- get_uni ;;
  ft <- lift (minimal_frame C (_atom u)) ;;
  modify_uni (set_frame (Some ft)).

(** The property [Universe.frame]. *)
Definition frame : M (option FrameTable) :=
  u <- get_uni ;;
  (if negb (container_is C u "_frame")
   then if container_is C u "_atom" then compute_minimal_frame else ret tt
   else ret tt) ;;;
  u' <- get_uni ;;
  ret (_frame u').

(** [field['frame'] = frame] *)
Definition set_field_frame (fr : Z) (field : Field) : Field :=
  mkField
    ((λ g, mkGridSpec (ox g) (oy g) (oz g) (dxi g) (dyj g) (dzk g)
                      (nx g) (ny g) (nz g) fr) <$> fdims field)
    (field_values field).

(** [Universe.append_field]; [frame] is [None] or an integer.  Here the
    table operations of lines 322-329 (the category conversions,
    [pd.concat], the constructor of the field class) return and keep the
    data of the tables; [append_field_steps] below goes through them one
    by one, as operations that may raise, and is this function when they
    do not. *)
Definition append_field (field : Field) (frame_arg : option Z)
  (values_arg : option (list array)) : M unit :=
  field' <-
    match frame_arg with
    | Some fr =>
        ft <- frame ;;
        match ft with
        | None => raise (Exn AttributeError "'NoneType' object has no attribute 'index'")
        | Some ft =>
            if decide (fr ∈ findex ft) then ret (set_field_frame fr field)
            else raise (Exn IndexError
                   ("frame " ++ pretty fr ++ " does not exist in the universe?"))
        end
    | None => ret field
    end ;;
  df <- lift (_reconstruct_field C field' values_arg) ;;
  u <- get_uni ;;
  match _field u with
  | Missing => raise (Exn AttributeError "'Universe' object has no attribute '_field'")
  | IsNone =>
      modify_uni (set_field (match df with Some f => Holds f | None => IsNone end))
  | Holds f0 =>
      match df with
      | None => raise (Exn AttributeError "'NoneType' object has no attribute 'field_values'")
      | Some f1 => modify_uni (set_field (Holds (concat_fields f0 f1)))
      end
  end ;;;
  modify_uni (set_traits_need_update true).

(** ** orbital.py *)

(** What [_setup_orbital] returns; [s_jcoefs] is the ninth component,
    present when [jcoefs] was given. *)
Record setup := mkSetup {
  s_t1 : nat; s_vector : list nat; s_fps : list GridSpec;
  s_x : array; s_y : array; s_z : array;
  s_bvs : matrix; s_icoefs : matrix; s_jcoefs : option matrix }.

Definition _setup_orbital (verbose : bool) (vector : option (list nat))
  (fps : option (list GridSpec)) (icoefs : option string)
  (jcoefs : option string) (irrep : option Z) : M setup :=
  t1 <- datetime_now ;;
  u <- get_uni ;;
  nbf <- called CallLenBasis (len_basis_functions C u) ;;
  nbf <- match irrep with
         | Some ir => called (CallIrrepCount ir) (irrep_basis_count C u ir)
         | None => ret nbf
         end ;;
  when verbose (print (EvaluatingBasis nbf)) ;;;
  vector <- called CallDetermineVector (_determine_vector C u vector irrep) ;;
  fps <- called (CallDetermineFps (length vector))
                (_determine_fps C u fps (length vector)) ;;
  xyz <- called CallGrid (numerical_grid_from_field_params C fps) ;;
  let '(x, y, z) := xyz in
  bvs <- called (CallEvaluate irrep verbose) (bf_evaluate C u x y z irrep verbose) ;;
  icoefs <- called (CallCheckColumn "current_momatrix" icoefs)
                   (_check_column u "current_momatrix" icoefs) ;;
  icoefs <- called (CallSquare icoefs irrep) (momatrix_square C u icoefs irrep) ;;
  match jcoefs with
  | Some _ =>
      jcoefs <- called (CallCheckColumn "current_momatrix" jcoefs)
                       (_check_column u "current_momatrix" jcoefs) ;;
      jcoefs <- called (CallSquare jcoefs None) (momatrix_square C u jcoefs None) ;;
      ret (mkSetup t1 vector fps x y z bvs icoefs (Some jcoefs))
  | None => ret (mkSetup t1 vector fps x y z bvs icoefs None)
  end.

(** [hasattr(uni, '_field')] *)
Definition has_field (u : Universe) : bool :=
  match _field u with Missing => false | _ => true end.

(** Returns the field when [inplace] is false, and [None] otherwise. *)
Definition _teardown_orbital (verbose : bool) (field : Field) (t1 : nat)
  (inplace replace dens : bool) : M (option Field) :=
  when verbose (
    t2 <- datetime_now ;;
    let kind := if dens then "density " else "orbitals" in
    print (TimingCompute kind (t2 - t1))) ;;;
  if negb inplace then ret (Some field)
  else
    u <- get_uni ;;
    when (replace && has_field u) (modify_uni (set_field Missing)) ;;;
    called CallAddField (Ok tt) ;;;
    add_field field ;;;
    ret None.

(** The world after the [verbose] report of [_teardown_orbital]: one
    timing line, one reading of the clock. *)
Definition reported (verbose dens : bool) (t1 : nat) (w : world) : world :=
  if verbose
  then mkWorld (uni w)
         (out w ++ [TimingCompute (if dens then "density " else "orbitals")
                      (clock w - t1)])
         (log w) (S (clock w))
  else w.

(** The classes named by [except (ValueError, IndexError, AssertionError)]. *)
Definition fallback_classes (c : exn_class) : bool :=
  bool_decide (c ∈ [ValueError; IndexError; AssertionError]).

Definition fallback_notice : line :=
  Text "Falling back to numpy orbital evaluation.".

Definition add_molecular_orbitals (field_params : option (list GridSpec))
  (mocoefs : option string) (vector : option (list nat)) (frame_arg : Z)
  (inplace replace verbose : bool) (irrep : option Z) : M (option Field) :=
  s <- _setup_orbital verbose vector field_params mocoefs None irrep ;;
  let a := mkOrbArgs (length (s_x s)) (s_bvs s) (s_vector s) (s_icoefs s) in
  ovs <- try_except
           (called (CallComputeOrbitals a) (_compute_orbitals C a))
           fallback_classes
           (λ e, when verbose (print fallback_notice) ;;;
                 called (CallComputeOrbitalsNojit a) (_compute_orbitals_nojit C a)) ;;
  field <- called CallMakeField (Ok (_make_field ovs (s_fps s))) ;;
  _teardown_orbital verbose field (s_t1 s) inplace replace false.

(** [uni.orbital[name]] *)
Definition orbital_column (u : Universe) (name : string) : result array :=
  match list_find (λ c, c.1 = name) (ocolumns (orbital u)) with
  | Some (_, c) => Ok c.2
  | None => Raise (Exn KeyError name)
  end.

(** The labels of the rows whose cell in [col] is not close to zero:
    [uni.orbital[~np.isclose(col, 0)].index.values]. *)
Definition occupied_labels (u : Universe) (col : array) : list nat :=
  (filter (λ p, isclose0 p.2 = false) (zip (oindex (orbital u)) col)).*1.

(** [uni.orbital.loc[vector][name].values]: for each label of [vector],
    the cells of the rows that carry it. *)
Definition loc_column (u : Universe) (col : array) (vector : list nat) : array :=
  v ← vector; (filter (λ p, p.1 = v) (zip (oindex (orbital u)) col)).*2.

(** [orbocc = mocol if orbocc is None and mocol != 'coef' else orbocc] *)
Definition resolve_orbocc (orbocc mocol : option string) : option string :=
  if bool_decide (orbocc = None) && bool_decide (mocol ≠ Some "coef")
  then mocol else orbocc.

Definition add_density (field_params : option (list GridSpec))
  (mocoefs orbocc : option string) (inplace : bool) (frame_arg : Z)
  (norm : string) (verbose : bool) : M (option Field) :=
  let mocol := mocoefs in
  s <- _setup_orbital verbose None field_params mocoefs None None ;;
  let orbocc := resolve_orbocc orbocc mocol in
  u <- get_uni ;;
  orbocc <- called (CallCheckColumn "orbital" orbocc)
                   (_check_column u "orbital" orbocc) ;;
  col <- lift (orbital_column u orbocc) ;;
  let vector := occupied_labels u col in
  let orbocc := loc_column u col vector in
  let a := mkOrbArgs (length (s_x s)) (s_bvs s) vector (s_icoefs s) in
  ovs <- try_except
           (called (CallComputeOrbitals a) (_compute_orbitals C a))
           fallback_classes
           (λ e, print fallback_notice ;;;
                 called (CallComputeOrbitalsNojit a) (_compute_orbitals_nojit C a)) ;;
  dens <- called CallComputeDensity (Ok (_compute_density ovs orbocc)) ;;
  fps0 <- match s_fps s !! 0 with
          | Some g => ret g
          | None => raise (Exn KeyError "0")
          end ;;
  field <- called CallMakeField (Ok (_make_field [dens] [fps0])) ;;
  _teardown_orbital verbose field (s_t1 s) inplace false false.

(** [np.eye(3)] *)
Definition eye3 : matrix :=
  [[fone; fzero; fzero]; [fzero; fone; fzero]; [fzero; fzero; fone]].

(** [print(a.shape, a.dtype)] *)
Definition print_shape (a : matrix) : M unit :=
  print (ShapeDtype (length a) (length (default [] (head a)))).

Definition add_orb_ang_mom (field_params : option (list GridSpec))
  (rcoefs icoefs : option string) (frame_arg : Z) (orbocc : option string)
  (maxes : option matrix) (inplace : bool) (norm : string) (verbose : bool)
  : M (option Field) :=
  match rcoefs, icoefs with
  | Some rcol, Some _ =>
      s <- _setup_orbital verbose None field_params rcoefs icoefs None ;;
      match s_jcoefs s with
      | None => raise (Exn ValueError "not enough values to unpack (expected 9, got 8)")
      | Some icoefs =>
          let rcoefs := s_icoefs s in
          let orbocc := match orbocc with None => rcol | Some o => o end in
          maxes <- match maxes with
                   | None =>
                       when verbose (print (Text
                         "If magnetic axes are not an identity matrix, specify maxes.")) ;;;
                       ret eye3
                   | Some m => ret m
                   end ;;
          u <- get_uni ;;
          occvec <- lift (orbital_column u orbocc) ;;
          grx <- called (CallEvaluateDiff "x" verbose)
                   (bf_evaluate_diff C u (s_x s) (s_y s) (s_z s) "x" verbose) ;;
          gry <- called (CallEvaluateDiff "y" verbose)
                   (bf_evaluate_diff C u (s_x s) (s_y s) (s_z s) "y" verbose) ;;
          grz <- called (CallEvaluateDiff "z" verbose)
                   (bf_evaluate_diff C u (s_x s) (s_y s) (s_z s) "z" verbose) ;;
          t2 <- datetime_now ;;
          when verbose (print (TimingGrid (t2 - s_t1 s))) ;;;
          print_shape rcoefs ;;;
          print_shape icoefs ;;;
          cur <- called CallCurrentDensity
                   (_compute_current_density C (s_bvs s) grx gry grz rcoefs icoefs
                      occvec verbose) ;;
          let '(curx, cury, curz) := cur in
          t3 <- datetime_now ;;
          when verbose (print (TimingCurrent (t3 - t2))) ;;;
          lfld <- called CallOrbAngMom
                    (_compute_orb_ang_mom C (s_x s) (s_y s) (s_z s) curx cury curz maxes) ;;
          field <- called CallMakeField (Ok (_make_field lfld (s_fps s))) ;;
          _teardown_orbital false field (s_t1 s) inplace false false
      end
  | _, _ => raise (Exn PlainException "Must specify rcoefs and icoefs")
  end.

(** ** Observations on a world *)

(** The world [w] after the calls [calls] and the lines [lines]. *)
Definition logged (w : world) (calls : list call) (lines : list line) : world :=
  mkWorld (uni w) (out w ++ lines) (log w ++ calls) (clock w).

(** The calls of a log that are orbital evaluations, in order. *)
Definition orbital_calls (l : list call) : list call :=
  l ≫= λ c, match c with
            | CallComputeOrbitals _ | CallComputeOrbitalsNojit _ => [c]
            | _ => []
            end.

(** The value arrays attached to the universe. *)
Definition attached (u : Universe) : list array :=
  match _field u with Holds f => field_values f | _ => [] end.

(** What an evaluator that started from the world [w1] and ended in the
    outcome [r] has to show for its orbital evaluation with arguments
    [a]: the fast routine was called first and once; the generic routine
    was called, once and with the same arguments, exactly when the fast
    one raised one of the three classes; the values that came back are
    the ones built into the field that is returned or attached; and an
    exception of the routine that ran last is the one that reaches the
    caller. *)
Definition fallback_law (a : orb_args) (w1 : world)
  (r : result (option Field) * world) (build : matrix → Field) (inplace : bool)
  : Prop :=
  let fast := _compute_orbitals C a in
  let generic := _compute_orbitals_nojit C a in
  let retried :=
    match fast with
    | Raise e => fallback_classes (exn_cls e)
    | Ok _ => false
    end in
  orbital_calls (log r.2) =
    (orbital_calls (log w1) ++
     CallComputeOrbitals a :: (if retried then [CallComputeOrbitalsNojit a] else []))%list ∧
  match (if retried then generic else fast) with
  | Ok ovs =>
      r.1 = Ok (if inplace then None else Some (build ovs)) ∧
      if inplace then field_values (build ovs) `suffix_of` attached (uni r.2)
      else uni r.2 = uni w1
  | Raise e => r.1 = Raise e
  end.

(** A computation that leaves the universe as it found it. *)
Definition keeps_uni {A} (m : M A) : Prop := ∀ w, uni (m w).2 = uni w.

(** A computation that only adds to the log of calls. *)
Definition grows {A} (m : M A) : Prop := ∀ w, log w `prefix_of` log (m w).2.

(** A computation that writes nothing to standard output. *)
Definition silent {A} (m : M A) : Prop := ∀ w, out (m w).2 = out w.

End Evaluators.

(** ** A small universe with integer-valued arrays

    Concrete collaborators and a concrete universe, on which the
    statements below are exercised.  The outcome of the two orbital
    routines is a parameter. *)

Module Toy.

Definition grid0 : @GridSpec Z :=
  mkGridSpec 0%Z 0%Z 0%Z 1%Z 1%Z 1%Z 2 1 1 0%Z.

Definition unit2 : @matrix Z := [[1%Z; 0%Z]; [0%Z; 1%Z]].

Definition is_bound (u : @Universe Z) (name : string) : bool :=
  if decide (name = "_frame") then bool_decide (is_Some (_frame u))
  else if decide (name = "_atom") then bool_decide (is_Some (_atom u))
  else false.

Definition collab (fast nojit : result (@matrix Z)) : @collaborators Z :=
  mkCollab
    (λ _, Ok 2)
    (λ _ _, Ok 2)
    (λ _ v _, Ok (default [0; 1] v))
    (λ _ fps _, Ok (default [grid0] fps))
    (λ _, Ok ([0%Z; 1%Z], [0%Z; 0%Z], [0%Z; 0%Z]))
    (λ _ _ _ _ _ _, Ok unit2)
    (λ _ _ _ _ _ _, Ok unit2)
    (λ _ _ _, Ok unit2)
    (λ _, fast)
    (λ _, nojit)
    (λ _ _ _ _ _ _ _ _, Ok ([0%Z; 0%Z], [0%Z; 0%Z], [0%Z; 0%Z]))
    (λ _ _ _ _ _ _ _, Ok [[0%Z; 0%Z]; [0%Z; 0%Z]; [0%Z; 0%Z]])
    is_bound
    (λ _, Ok (mkFrameTable [0%Z]))
    (λ f _, Ok (Some f)).

Definition occupations : @OrbitalTable Z :=
  mkOrbitalTable [0; 1]
    [("occupation", [0%Z; 0%Z]); ("lreal", [2%Z; 0%Z]); ("limag", [0%Z; 1%Z])].

Definition universe (fl : @field_slot Z) : @Universe Z :=
  mkUniverse (Some (mkFrameTable [0%Z])) None fl false occupations
    ["coef"; "lreal"; "limag"].

Definition start (fl : @field_slot Z) : @world Z := mkWorld (universe fl) [] [] 0.

Definition old_field : @Field Z := mkField [grid0] [[7%Z; 8%Z]].
Definition new_field : @Field Z := mkField [grid0] [[1%Z; 2%Z]].

Definition value_error : exn := Exn ValueError "shape mismatch".
Definition memory_error : exn := Exn MemoryError "cannot allocate".

Definition isclose0 (v : Z) : bool := bool_decide (v = 0%Z).

(** What [_setup_orbital] returns on [start fl] when neither a vector,
    nor field parameters, nor a column, nor an irrep is given, and the
    world it leaves. *)
Definition setup_result : @setup Z :=
  mkSetup 0 [0; 1] [grid0] [0%Z; 1%Z] [0%Z; 0%Z] [0%Z; 0%Z] unit2 unit2 None.

Definition after_setup (fl : @field_slot Z) (verbose : bool) : @world Z :=
  mkWorld (universe fl)
    (if verbose then [EvaluatingBasis 2] else [])
    [CallLenBasis; CallDetermineVector; CallDetermineFps 2; CallGrid;
     CallEvaluate None verbose; CallCheckColumn "current_momatrix" None;
     CallSquare "coef" None]
    1.

End Toy.

(** ** basis.py: the shell tables, and the generator on any integer *)

(** [lmap] and [ml_count]. *)
Definition lmap : gmap string nat :=
  list_to_map
    [("s", 0); ("p", 1); ("d", 2); ("f", 3); ("g", 4); ("h", 5); ("i", 6);
     ("k", 7); ("l", 8); ("m", 9); ("px", 1); ("py", 1); ("pz", 1)].

Definition ml_count : gmap string nat :=
  list_to_map
    [("s", 1); ("p", 3); ("d", 5); ("f", 7); ("g", 9); ("h", 11); ("i", 13);
     ("k", 15); ("l", 17); ("m", 19)].

(** The row of the array of order [l] in which [[i, j, l - i - j]] is
    written: the rows of the smaller [i] come first, [l + 1 - i'] of them
    for each [i']. *)
Definition row_index (l i j : nat) : nat := (i * (2 * l + 3 - i)) `div` 2 + j.

(** Two outcomes that agree: both return, with related states, or both
    raise the same exception. *)
Definition result_rel {S S' : Type} (R : S → S' → Prop)
  (r : result S) (r' : result S') : Prop :=
  match r, r' with
  | Ok t, Ok t' => R t t'
  | Raise e, Raise e' => e = e'
  | _, _ => False
  end.

Module BasisInt.

(** [cartesian_gtf_exponents] on a Python integer, negative ones
    included; rows hold integers. *)
Definition triple : Type := Z * Z * Z.

Record gen_state := GenState { values : list (option triple); h : nat }.

(** [range(m)]: empty when [m <= 0]. *)
Definition range (m : Z) : list Z := Z.of_nat <$> seq 0 (Z.to_nat m).

(** [np.empty((n, 3))]: numpy refuses a negative dimension. *)
Definition np_empty (n : Z) : result (list (option triple)) :=
  if decide (0 ≤ n)%Z then Ok (replicate (Z.to_nat n) None)
  else Raise (Exn ValueError "negative dimensions are not allowed").

Definition store (r : triple) (st : gen_state) : result gen_state :=
  if decide (h st < length (values st))
  then Ok (GenState (<[h st := Some r]> (values st)) (S (h st)))
  else Raise (Exn IndexError "index is out of bounds for axis 0").

Definition cartesian_gtf_exponents (l : Z) : result (list (option triple)) :=
  let m := (l + 1)%Z in
  let n := (((m + 1) * m) `div` 2)%Z in
  match np_empty n with
  | Raise e => Raise e
  | Ok values0 =>
      match
        for_each (range m) (λ i,
          for_each (range m) (λ j,
            for_each (range m) (λ k st,
              if decide (i + j + k = l)%Z then store (i, j, k) st else Ok st)))
          (GenState values0 0)
      with
      | Ok st => Ok (values st)
      | Raise e => Raise e
      end
  end.

(** A row of natural numbers as a row of integers. *)
Definition of_nat_row (r : Basis.triple) : triple :=
  (Z.of_nat r.1.1, Z.of_nat r.1.2, Z.of_nat r.2).

(** The local states of the two generators hold the same rows. *)
Definition same_rows (st : Basis.gen_state) (st' : gen_state) : Prop :=
  values st' = fmap (M:=option) of_nat_row <$> Basis.values st ∧ h st' = Basis.h st.

End BasisInt.

(** ** universe.py and orbital.py: further members and observations *)

Section Container.
Context {F : Type}.
Variable C : @collaborators F.

#[local] Notation "x <- m ;; k" := (bind m (λ x, k))
  (at level 100, m at next level, right associativity).

(** [Universe.__len__]:
    [len(self.frame) if self._is('_frame') else 0]. *)
Definition __len__ : @M F nat :=
  u <- get_uni ;;
  if container_is C u "_frame" then
    ft <- frame C ;;
    match ft with
    | Some t => ret (length (findex t))
    | None => raise (Exn TypeError "object of type 'NoneType' has no len()")
    end
  else ret 0.

#[local] Notation "m ;;; k" := (bind m (λ _, k))
  (at level 100, right associativity).

(** The operations on tables that lines 322-329 of [append_field] go
    through.  They belong to [exa], to pandas and to [exatomic.field];
    each returns the table it leaves, or raises. *)
Record table_ops := mkTableOps {
  _revert_categories : @Field F → result (@Field F);
  _set_categories : @Field F → result (@Field F);
  pd_concat : list (@GridSpec F) → list (@GridSpec F) → result (list (@GridSpec F));
  field_cls : list (@array F) → list (@GridSpec F) → result (@Field F) }.

Variable T : table_ops.

(** [Universe.append_field], statement by statement.  The table bound to
    [_field] is converted in place (line 324) and [_field] is bound anew
    (line 328) before the categories are set (line 329) and before the
    refresh flag is set (line 330); [pd_concat] stands for lines 326 and
    327. *)
Definition append_field_steps (field : @Field F) (frame_arg : option Z)
  (values_arg : option (list (@array F))) : @M F unit :=
  field' <-
    match frame_arg with
    | Some fr =>
        ft <- frame C ;;
        match ft with
        | None => raise (Exn AttributeError "'NoneType' object has no attribute 'index'")
        | Some ft =>
            if decide (fr ∈ findex ft) then ret (set_field_frame fr field)
            else raise (Exn IndexError
                   ("frame " ++ pretty fr ++ " does not exist in the universe?"))
        end
    | None => ret field
    end ;;
  df <- lift (_reconstruct_field C field' values_arg) ;;
  u <- get_uni ;;
  match _field u with
  | Missing => raise (Exn AttributeError "'Universe' object has no attribute '_field'")
  | IsNone =>
      modify_uni (set_field (match df with Some f => Holds f | None => IsNone end))
  | Holds f0 =>
      match df with
      | None => raise (Exn AttributeError "'NoneType' object has no attribute 'field_values'")
      | Some f1 =>
          let values := (field_values f0 ++ field_values f1)%list in
          f0' <- lift (_revert_categories T f0) ;;
          modify_uni (set_field (Holds f0')) ;;;
          f1' <- lift (_revert_categories T f1) ;;
          dims <- lift (pd_concat T (fdims f0') (fdims f1')) ;;
          fnew <- lift (field_cls T values dims) ;;
          modify_uni (set_field (Holds fnew)) ;;;
          fcat <- lift (_set_categories T fnew) ;;
          modify_uni (set_field (Holds fcat))
      end
  end ;;;
  modify_uni (set_traits_need_update true).

(** Table operations that return and keep the data: the conversions
    leave a table as it is, [pd_concat] appends the rows and the field
    class pairs the values with the rows. *)
Definition plain_tables : Prop :=
  (∀ f, _revert_categories T f = Ok f) ∧
  (∀ f, _set_categories T f = Ok f) ∧
  (∀ a b, pd_concat T a b = Ok (a ++ b)%list) ∧
  (∀ v d, field_cls T v d = Ok (mkField d v)).

(** [container_is] answers for [_frame] as [Container._is] does: the
    attribute is bound to a table. *)
Definition frame_is_bound : Prop :=
  ∀ u : @Universe F, container_is C u "_frame" = bool_decide (is_Some (_frame u)).


(** A computation whose new lines all satisfy [P] and whose new calls
    all satisfy [Q]; it takes nothing back from the output or the log. *)
Definition emits {A} (P : line → Prop) (Q : @call F → Prop) (m : @M F A) : Prop :=
  ∀ w, ∃ ls cs,
    out (m w).2 = (out w ++ ls)%list ∧ log (m w).2 = (log w ++ cs)%list ∧
    Forall P ls ∧ Forall Q cs.

(** Calls other than the two orbital routines. *)
Definition not_orbital_call (c : @call F) : Prop :=
  match c with
  | CallComputeOrbitals _ | CallComputeOrbitalsNojit _ => False
  | _ => True
  end.

(** Lines other than the timing line of [_teardown_orbital]. *)
Definition not_compute_timing (l : line) : Prop :=
  match l with TimingCompute _ _ => False | _ => True end.

(** Lines other than a timing line labelled 'density '. *)
Definition not_density_label (l : line) : Prop :=
  match l with TimingCompute kind _ => kind ≠ "density " | _ => True end.

End Container.

Module ToyTables.

(** Table operations that return, and the same with a [_set_categories]
    that raises. *)
Definition plain : @table_ops Z :=
  mkTableOps (λ f, Ok f) (λ f, Ok f) (λ a b, Ok (a ++ b)%list) (λ v d, Ok (mkField d v)).

Definition type_error : exn := Exn TypeError "cannot set categories".

Definition failing_set_categories : @table_ops Z :=
  mkTableOps (λ f, Ok f) (λ _, Raise type_error) (λ a b, Ok (a ++ b)%list)
    (λ v d, Ok (mkField d v)).

End ToyTables.

Close Scope string_scope.

(** * Properties of the exponent generator *)

Section ForEach.
Context {A S : Type}.
Implicit Types (body : A → S → result S) (s : S).

Lemma for_each_app xs ys body s :
  for_each (xs ++ ys) body s =
  match for_each xs body s with
  | Ok s' => for_each ys body s'
  | Raise e => Raise e
  end.
Proof.
  revert s. induction xs as [|x xs IH]; intros s; simpl; [done|].
  destruct (body x s); [apply IH | done].
Qed.

Lemma for_each_ext xs body body' s :
  (∀ x s, body x s = body' x s) → for_each xs body s = for_each xs body' s.
Proof.
  intros Hext. revert s. induction xs as [|x xs IH]; intros s; simpl; [done|].
  rewrite Hext. destruct (body' x s); [apply IH | done].
Qed.

(** A nested loop is one loop over the concatenated inner ranges. *)
Lemma for_each_bind {B} (xs : list B) (f : B → list A) body s :
  for_each xs (λ x, for_each (f x) body) s = for_each (xs ≫= f) body s.
Proof.
  revert s. induction xs as [|x xs IH]; intros s; [done|].
  rewrite bind_cons, for_each_app. simpl.
  destruct (for_each (f x) body s); [apply IH | done].
Qed.

(** A guarded body is a loop over the elements that pass the guard. *)
Lemma for_each_guard (P : A → Prop) `{!∀ x, Decision (P x)} xs body s :
  for_each xs (λ x s, if decide (P x) then body x s else Ok s) s =
  for_each (xs ≫= λ x, if decide (P x) then [x] else []) body s.
Proof.
  revert s. induction xs as [|x xs IH]; intros s; [done|].
  rewrite bind_cons. simpl. destruct (decide (P x)); simpl.
  - destruct (body x s); [apply IH | done].
  - apply IH.
Qed.

End ForEach.

Module BasisFacts.
Import Basis.

(** The three loops are one loop over [visited l]. *)
Lemma loops_visited l st :
  for_each (range (l + 1)) (λ i,
    for_each (range (l + 1)) (λ j,
      for_each (range (l + 1)) (λ k st,
        if decide (i + j + k = l) then store (i, j, k) st else Ok st))) st =
  for_each (visited l) store st.
Proof.
  unfold visited.
  rewrite <- for_each_bind. apply for_each_ext. intros i st1.
  rewrite <- for_each_bind. apply for_each_ext. intros j st2.
  rewrite (for_each_guard (λ k, i + j + k = l) _ (λ k, store (i, j, k))).
  rewrite <- (for_each_bind _ (λ k, if decide (i + j + k = l) then [k] else [])
                (λ k, store (i, j, k))).
  rewrite <- for_each_bind. apply for_each_ext. intros k st3.
  destruct (decide (i + j + k = l)); simpl; [|done].
  by destruct (store (i, j, k) st3).
Qed.

(** Writing [rows] into an array whose first [length pre] rows are
    written and whose remaining [r] rows are free. *)
Lemma store_rows rows pre r :
  length rows ≤ r →
  for_each rows store (GenState ((Some <$> pre) ++ replicate r None) (length pre)) =
  Ok (GenState ((Some <$> pre ++ rows) ++ replicate (r - length rows) None)
               (length pre + length rows)).
Proof.
  revert pre r. induction rows as [|x rows IH]; intros pre r Hr; simpl in *.
  - by rewrite app_nil_r, Nat.sub_0_r, Nat.add_0_r.
  - destruct r as [|r]; [lia|]. unfold store at 1. simpl.
    rewrite length_app, length_fmap. simpl.
    destruct (decide (length pre < length pre + S (length (replicate r (@None triple)))))
      as [_|Hn]; [|lia].
    replace (<[length pre:=Some x]> ((Some <$> pre) ++ None :: replicate r None))
      with ((Some <$> pre ++ [x]) ++ replicate r None).
    + replace (S (length pre)) with (length (pre ++ [x]))
        by (rewrite length_app; simpl; lia).
      rewrite IH by lia. rewrite <- (assoc_L (++)). simpl.
      do 2 f_equal. rewrite length_app. simpl. lia.
    + rewrite fmap_app, <- (assoc_L (++)). simpl.
      rewrite insert_app_r_alt by (rewrite length_fmap; lia).
      by rewrite length_fmap, Nat.sub_diag.
Qed.

(** For given [i] and [j] the innermost loop stores at most one row. *)
Lemma inner_single i j l a n :
  (seq a n ≫= λ k, if decide (i + j + k = l) then [(i, j, k)] else []) =
  if decide (i + j ≤ l ∧ a ≤ l - i - j < a + n) then [(i, j, l - i - j)] else [].
Proof.
  revert a. induction n as [|n IH]; intros a; simpl.
  - destruct (decide _); [lia | done].
  - rewrite IH. repeat destruct (decide _); simpl; try lia; try done.
    repeat f_equal; lia.
Qed.

Lemma middle_rows i l a n :
  i ≤ l →
  (seq a n ≫= λ j, seq 0 (l + 1) ≫= λ k,
     if decide (i + j + k = l) then [(i, j, k)] else []) =
  (λ j, (i, j, l - i - j)) <$> seq a (n `min` (l + 1 - i - a)).
Proof.
  intros Hi. revert a. induction n as [|n IH]; intros a; [done|].
  change (seq a (S n)) with (a :: seq (S a) n). rewrite bind_cons, IH.
  rewrite inner_single.
  destruct (decide _) as [H|H].
  - replace (S n `min` (l + 1 - i - a)) with (S (n `min` (l + 1 - i - S a))) by lia.
    done.
  - replace (n `min` (l + 1 - i - S a)) with 0 by lia.
    replace (S n `min` (l + 1 - i - a)) with 0 by lia. done.
Qed.

Lemma middle_none i l (js : list nat) :
  l < i →
  (js ≫= λ j, seq 0 (l + 1) ≫= λ k,
     if decide (i + j + k = l) then [(i, j, k)] else []) = [].
Proof.
  intros Hi. induction js as [|j js IH]; [done|].
  rewrite bind_cons, IH, inner_single.
  destruct (decide _); [lia | done].
Qed.

Lemma visited_triangle l : visited l = triangle l.
Proof.
  unfold visited, triangle. apply list_bind_ext; [|done]. intros i.
  destruct (decide (i ≤ l)) as [Hi|Hi].
  - unfold range. rewrite middle_rows by done. f_equal. f_equal. lia.
  - unfold range. rewrite middle_none by lia.
    by replace (l + 1 - i) with 0 by lia.
Qed.

Lemma triangle_length_from l a n :
  a + n = l + 1 →
  length (seq a n ≫= λ i, (λ j, (i, j, l - i - j)) <$> seq 0 (l + 1 - i)) * 2
  = n * (n + 1).
Proof.
  revert a. induction n as [|n IH]; intros a Ha; [done|].
  change (seq a (S n)) with (a :: seq (S a) n).
  rewrite bind_cons, length_app, length_fmap, length_seq.
  specialize (IH (S a)). nia.
Qed.

Lemma triangle_length l : length (triangle l) = ((l + 1 + 1) * (l + 1)) `div` 2.
Proof.
  pose proof (triangle_length_from l 0 (l + 1) eq_refl) as H.
  fold (range (l + 1)) in H. unfold triangle, range in *.
  replace ((l + 1 + 1) * (l + 1)) with
    (length (seq 0 (l + 1) ≫= λ i, (λ j, (i, j, l - i - j)) <$> seq 0 (l + 1 - i)) * 2)
    by lia.
  by rewrite Nat.div_mul.
Qed.

Lemma elem_of_visited l i j k : (i, j, k) ∈ visited l ↔ i + j + k = l.
Proof.
  unfold visited, range. rewrite list_elem_of_bind. split.
  - intros (i' & H & _). apply list_elem_of_bind in H as (j' & H & _).
    apply list_elem_of_bind in H as (k' & H & _).
    destruct (decide (i' + j' + k' = l)) as [Hs|]; [|by apply elem_of_nil in H].
    apply list_elem_of_singleton in H. by simplify_eq.
  - intros Hs. exists i. split; [|apply elem_of_seq; lia].
    apply list_elem_of_bind. exists j. split; [|apply elem_of_seq; lia].
    apply list_elem_of_bind. exists k. split; [|apply elem_of_seq; lia].
    rewrite decide_True by done. by apply list_elem_of_singleton.
Qed.

(** Concatenating sorted blocks in ascending block order keeps the order. *)
Lemma sorted_bind_seq {A} (R : A → A → Prop) (f : nat → list A) a n :
  (∀ x, StronglySorted R (f x)) →
  (∀ x y u v, x < y → u ∈ f x → v ∈ f y → R u v) →
  StronglySorted R (seq a n ≫= f).
Proof.
  intros Hin Hacross. revert a. induction n as [|n IH]; intros a.
  - constructor.
  - change (seq a (S n)) with (a :: seq (S a) n). rewrite bind_cons.
    apply StronglySorted_app; split_and!; [|done|apply IH].
    intros u v Hu Hv. apply list_elem_of_bind in Hv as (y & Hv & Hy).
    apply elem_of_seq in Hy. apply (Hacross a y); [lia|done..].
Qed.

Lemma sorted_fmap_seq {A} (R : A → A → Prop) (f : nat → A) a n :
  (∀ x y, x < y → R (f x) (f y)) → StronglySorted R (f <$> seq a n).
Proof.
  intros Hf. revert a. induction n as [|n IH]; intros a; simpl.
  - constructor.
  - constructor; [apply IH|]. apply Forall_fmap, Forall_seq.
    intros y Hy. apply Hf. lia.
Qed.

Lemma triangle_sorted l : StronglySorted lex_lt (triangle l).
Proof.
  unfold triangle, range. apply sorted_bind_seq.
  - intros i. apply sorted_fmap_seq. intros j j' Hj. unfold lex_lt. simpl.
    destruct (decide (j' < l + 1 - i)).
    + right. split; [done|]. by left.
    + right. split; [done|]. by left.
  - intros i i' u v Hi Hu Hv.
    apply list_elem_of_fmap in Hu as (j & -> & _).
    apply list_elem_of_fmap in Hv as (j' & -> & _).
    unfold lex_lt. simpl. by left.
Qed.

Lemma lex_lt_irrefl r : ¬ lex_lt r r.
Proof. unfold lex_lt. lia. Qed.

Lemma sorted_NoDup {A} (R : A → A → Prop) (xs : list A) :
  (∀ x, ¬ R x x) → StronglySorted R xs → NoDup xs.
Proof.
  intros Hirr. induction 1 as [|x xs _ IH Hall]; constructor; [|done].
  intros Hx. apply (Hirr x).
  rewrite Forall_forall in Hall. by apply Hall.
Qed.

(** What the function returns: every cell written, with the rows of
    [visited l] in loop order. *)
Lemma exponents_visited l :
  cartesian_gtf_exponents l = Ok (Some <$> visited l).
Proof.
  unfold cartesian_gtf_exponents. cbv zeta. rewrite loops_visited.
  rewrite <- triangle_length, <- visited_triangle.
  generalize (visited l). intros rows.
  pose proof (store_rows rows [] (length rows) (le_n _)) as H.
  simpl in H. rewrite H. simpl.
  by rewrite Nat.sub_diag, app_nil_r.
Qed.

(** The entries are bounded by [l]. *)
Lemma exponents_bounded l i j k :
  (i, j, k) ∈ visited l → i ≤ l ∧ j ≤ l ∧ k ≤ l.
Proof. rewrite elem_of_visited. lia. Qed.

End BasisFacts.

(** * Properties of the container and of the evaluators *)

(** Unfold the monad's operations and reduce. *)
Ltac run_monad :=
  cbv beta iota zeta delta
    [bind ret raise lift called print when datetime_now get_uni modify_uni
     try_except];
  simpl.

Section EvaluatorFacts.
Set Default Proof Using "Type".
Context {F : Type}.
Variables (fzero fone : F) (fadd fmul : F → F → F) (isclose0 : F → bool).
Variable C : @collaborators F.
Implicit Types (w : @world F) (u : @Universe F) (f field : @Field F).

(** *** Running the monad *)

Lemma run_bind {A B} (m : M A) (k : A → M B) w a w' :
  m w = (Ok a, w') → bind m k w = k a w'.
Proof. unfold bind. by intros ->. Qed.

(** *** Computations that leave the universe alone *)

Lemma keeps_bind {A B} (m : @M F A) (k : A → @M F B) :
  keeps_uni m → (∀ a, keeps_uni (k a)) → keeps_uni (bind m k).
Proof.
  intros Hm Hk w. unfold bind. specialize (Hm w).
  destruct (m w) as [[a|e] w']; simpl in *; [|done].
  by rewrite Hk.
Qed.

Lemma keeps_try {A} (m : @M F A) handled (handler : exn → @M F A) :
  keeps_uni m → (∀ e, keeps_uni (handler e)) → keeps_uni (try_except m handled handler).
Proof.
  intros Hm Hh w. unfold try_except. specialize (Hm w).
  destruct (m w) as [[a|e] w']; simpl in *; [done|].
  destruct (handled (exn_cls e)); [by rewrite Hh | done].
Qed.

Lemma keeps_ret {A} (a : A) : keeps_uni (@ret F A a).
Proof. done. Qed.
Lemma keeps_raise {A} e : keeps_uni (@raise F A e).
Proof. done. Qed.
Lemma keeps_lift {A} (r : result A) : keeps_uni (@lift F A r).
Proof. done. Qed.
Lemma keeps_called {A} c (r : result A) : keeps_uni (@called F A c r).
Proof. done. Qed.
Lemma keeps_print l : keeps_uni (@print F l).
Proof. done. Qed.
Lemma keeps_now : keeps_uni (@datetime_now F).
Proof. done. Qed.
Lemma keeps_get : keeps_uni (@get_uni F).
Proof. done. Qed.
Lemma keeps_when b (m : @M F unit) : keeps_uni m → keeps_uni (when b m).
Proof. by destruct b. Qed.

Ltac keeps :=
  repeat first
    [ apply keeps_ret | apply keeps_raise | apply keeps_lift
    | apply keeps_called | apply keeps_print | apply keeps_now
    | apply keeps_get | apply keeps_when
    | apply keeps_bind; [|intros ?]
    | apply keeps_try; [|intros ?]
    | match goal with
      | |- keeps_uni (match ?x with _ => _ end) => destruct x
      end ].

Lemma setup_keeps_uni verbose vector fps icoefs jcoefs irrep :
  keeps_uni (_setup_orbital C verbose vector fps icoefs jcoefs irrep).
Proof. unfold _setup_orbital. keeps. Qed.

Lemma add_molecular_orbitals_keeps_uni fps mocoefs vector frame_arg replace verbose irrep :
  keeps_uni (add_molecular_orbitals C fps mocoefs vector frame_arg false replace verbose irrep).
Proof.
  unfold add_molecular_orbitals. keeps; apply setup_keeps_uni.
Qed.

Lemma add_density_keeps_uni fps mocoefs orbocc frame_arg norm verbose :
  keeps_uni (add_density fzero fadd fmul isclose0 C fps mocoefs orbocc false frame_arg
               norm verbose).
Proof.
  unfold add_density. keeps; apply setup_keeps_uni.
Qed.

Lemma add_orb_ang_mom_keeps_uni fps rcoefs icoefs frame_arg orbocc maxes norm verbose :
  keeps_uni (add_orb_ang_mom fzero fone C fps rcoefs icoefs frame_arg orbocc maxes false
               norm verbose).
Proof.
  unfold add_orb_ang_mom, print_shape. keeps; apply setup_keeps_uni.
Qed.

(** *** Computations that write nothing *)

Lemma silent_bind {A B} (m : @M F A) (k : A → @M F B) :
  silent m → (∀ a, silent (k a)) → silent (bind m k).
Proof.
  intros Hm Hk w. unfold bind. specialize (Hm w).
  destruct (m w) as [[a|e] w']; simpl in *; [|done].
  by rewrite Hk.
Qed.

Lemma silent_try {A} (m : @M F A) handled (handler : exn → @M F A) :
  silent m → (∀ e, silent (handler e)) → silent (try_except m handled handler).
Proof.
  intros Hm Hh w. unfold try_except. specialize (Hm w).
  destruct (m w) as [[a|e] w']; simpl in *; [done|].
  destruct (handled (exn_cls e)); [by rewrite Hh | done].
Qed.

Lemma silent_ret {A} (a : A) : silent (@ret F A a).
Proof. done. Qed.
Lemma silent_raise {A} e : silent (@raise F A e).
Proof. done. Qed.
Lemma silent_lift {A} (r : result A) : silent (@lift F A r).
Proof. done. Qed.
Lemma silent_called {A} c (r : result A) : silent (@called F A c r).
Proof. done. Qed.
Lemma silent_now : silent (@datetime_now F).
Proof. done. Qed.
Lemma silent_get : silent (@get_uni F).
Proof. done. Qed.
Lemma silent_modify g : silent (@modify_uni F g).
Proof. done. Qed.
Lemma silent_unless (m : @M F unit) : silent (when false m).
Proof. done. Qed.
Lemma silent_when b (m : @M F unit) : silent m → silent (when b m).
Proof. by destruct b. Qed.

Ltac silent :=
  repeat first
    [ apply silent_ret | apply silent_raise | apply silent_lift
    | apply silent_called | apply silent_now | apply silent_get
    | apply silent_modify | apply silent_unless | apply silent_when
    | apply silent_bind; [|intros ?]
    | apply silent_try; [|intros ?]
    | match goal with
      | |- silent (match ?x with _ => _ end) => destruct x
      end ].

(** X16: with [verbose=False], [add_molecular_orbitals] writes nothing,
    whatever the collaborators return and whether or not it falls back. *)
Lemma add_molecular_orbitals_silent fps mocoefs vector frame_arg inplace replace irrep :
  silent (add_molecular_orbitals C fps mocoefs vector frame_arg inplace replace false
            irrep).
Proof.
  unfold add_molecular_orbitals, _setup_orbital, _teardown_orbital, add_field.
  silent.
Qed.

(** *** Computations that only add to the log *)

Lemma grows_bind {A B} (m : @M F A) (k : A → @M F B) :
  grows m → (∀ a, grows (k a)) → grows (bind m k).
Proof.
  intros Hm Hk w. unfold bind. specialize (Hm w).
  destruct (m w) as [[a|e] w']; simpl in *; [|done].
  by etrans; [|apply Hk].
Qed.

Lemma grows_try {A} (m : @M F A) handled (handler : exn → @M F A) :
  grows m → (∀ e, grows (handler e)) → grows (try_except m handled handler).
Proof.
  intros Hm Hh w. unfold try_except. specialize (Hm w).
  destruct (m w) as [[a|e] w']; simpl in *; [done|].
  destruct (handled (exn_cls e)); [|done]. by etrans; [|apply Hh].
Qed.

Lemma grows_ret {A} (a : A) : grows (@ret F A a).
Proof. intros w. simpl. reflexivity. Qed.
Lemma grows_raise {A} e : grows (@raise F A e).
Proof. intros w. simpl. reflexivity. Qed.
Lemma grows_lift {A} (r : result A) : grows (@lift F A r).
Proof. intros w. simpl. reflexivity. Qed.
Lemma grows_called {A} c (r : result A) : grows (@called F A c r).
Proof. intros w. by exists [c]. Qed.
Lemma grows_print l : grows (@print F l).
Proof. intros w. simpl. reflexivity. Qed.
Lemma grows_now : grows (@datetime_now F).
Proof. intros w. simpl. reflexivity. Qed.
Lemma grows_get : grows (@get_uni F).
Proof. intros w. simpl. reflexivity. Qed.
Lemma grows_modify g : grows (@modify_uni F g).
Proof. intros w. simpl. reflexivity. Qed.
Lemma grows_when b (m : @M F unit) : grows m → grows (when b m).
Proof. destruct b; [done|]. intros _ w. simpl. reflexivity. Qed.

Ltac grows :=
  repeat first
    [ apply grows_ret | apply grows_raise | apply grows_lift
    | apply grows_called | apply grows_print | apply grows_now
    | apply grows_get | apply grows_modify | apply grows_when
    | apply grows_bind; [|intros ?]
    | apply grows_try; [|intros ?]
    | match goal with
      | |- grows (match ?x with _ => _ end) => destruct x
      end ].


(** *** The property [frame] *)

(** Reading [frame] may bind [_frame]; it touches nothing else. *)
Lemma frame_keeps_field w :
  _field (uni (frame C w).2) = _field (uni w) ∧
  _traits_need_update (uni (frame C w).2) = _traits_need_update (uni w) ∧
  out (frame C w).2 = out w ∧ log (frame C w).2 = log w.
Proof.
  unfold frame, compute_minimal_frame. run_monad.
  destruct (container_is C (uni w) "_frame"); run_monad; [done|].
  destruct (container_is C (uni w) "_atom"); run_monad; [|done].
  destruct (minimal_frame C (_atom (uni w))); run_monad; done.
Qed.

(** *** Attaching fields *)

Lemma teardown_returns verbose field t1 replace dens w :
  _teardown_orbital verbose field t1 false replace dens w =
  (Ok (Some field), reported verbose dens t1 w).
Proof. unfold _teardown_orbital, reported. by destruct verbose. Qed.

Lemma teardown_attaches verbose field t1 replace dens w :
  _teardown_orbital verbose field t1 true replace dens w =
  let w1 := reported verbose dens t1 w in
  (Ok None,
   mkWorld
     (set_field
        (match _field (uni w1) with
         | Holds f0 => if replace then Holds field else Holds (concat_fields f0 field)
         | _ => Holds field
         end)
        (set_traits_need_update true (uni w1)))
     (out w1) (log w1 ++ [CallAddField]) (clock w1)).
Proof.
  destruct w as [[fr atm fl tr orb mc] o l c].
  by destruct verbose, replace, fl.
Qed.

(** *** The evaluators after a successful set-up *)

Lemma add_molecular_orbitals_run fps mocoefs vector frame_arg inplace replace
    verbose irrep w s w1 :
  _setup_orbital C verbose vector fps mocoefs None irrep w = (Ok s, w1) →
  let a := mkOrbArgs (length (s_x s)) (s_bvs s) (s_vector s) (s_icoefs s) in
  let finish ovs :=
    _teardown_orbital verbose (_make_field ovs (s_fps s)) (s_t1 s) inplace replace false in
  let notice := if verbose then [fallback_notice] else [] in
  add_molecular_orbitals C fps mocoefs vector frame_arg inplace replace verbose irrep w =
  match _compute_orbitals C a with
  | Ok ovs => finish ovs (logged w1 [CallComputeOrbitals a; CallMakeField] [])
  | Raise e =>
      if fallback_classes (exn_cls e) then
        match _compute_orbitals_nojit C a with
        | Ok ovs =>
            finish ovs
              (logged w1 [CallComputeOrbitals a; CallComputeOrbitalsNojit a; CallMakeField]
                 notice)
        | Raise e' =>
            (Raise e', logged w1 [CallComputeOrbitals a; CallComputeOrbitalsNojit a] notice)
        end
      else (Raise e, logged w1 [CallComputeOrbitals a] [])
  end.
Proof.
  intros Hs a finish notice. unfold add_molecular_orbitals.
  rewrite (run_bind _ _ _ _ _ Hs). fold a. unfold logged, notice.
  run_monad. destruct (_compute_orbitals C a) as [ovs|e]; run_monad.
  - by rewrite app_nil_r, <- (assoc_L (++)).
  - destruct (fallback_classes (exn_cls e)); [|by rewrite app_nil_r].
    destruct verbose; run_monad;
      destruct (_compute_orbitals_nojit C a); run_monad;
      by rewrite ?app_nil_r, <- ?(assoc_L (++)).
Qed.

Lemma add_density_run fps mocoefs orbocc inplace frame_arg norm verbose
    w s w1 col cells :
  _setup_orbital C verbose None fps mocoefs None None w = (Ok s, w1) →
  _check_column (uni w1) "orbital" (resolve_orbocc orbocc mocoefs) = Ok col →
  orbital_column (uni w1) col = Ok cells →
  let key := CallCheckColumn "orbital" (resolve_orbocc orbocc mocoefs) in
  let vector := occupied_labels isclose0 (uni w1) cells in
  let occ := loc_column (uni w1) cells vector in
  let a := mkOrbArgs (length (s_x s)) (s_bvs s) vector (s_icoefs s) in
  let finish ovs calls lines :=
    match s_fps s !! 0 with
    | Some g =>
        _teardown_orbital verbose
          (_make_field [_compute_density fzero fadd fmul ovs occ] [g])
          (s_t1 s) inplace false false
          (logged w1 (key :: calls ++ [CallComputeDensity; CallMakeField]) lines)
    | None =>
        (Raise (Exn KeyError "0"), logged w1 (key :: calls ++ [CallComputeDensity]) lines)
    end in
  add_density fzero fadd fmul isclose0 C fps mocoefs orbocc inplace frame_arg norm
    verbose w =
  match _compute_orbitals C a with
  | Ok ovs => finish ovs [CallComputeOrbitals a] []
  | Raise e =>
      if fallback_classes (exn_cls e) then
        match _compute_orbitals_nojit C a with
        | Ok ovs =>
            finish ovs [CallComputeOrbitals a; CallComputeOrbitalsNojit a]
              [fallback_notice]
        | Raise e' =>
            (Raise e',
             logged w1 [key; CallComputeOrbitals a; CallComputeOrbitalsNojit a]
               [fallback_notice])
        end
      else (Raise e, logged w1 [key; CallComputeOrbitals a] [])
  end.
Proof.
  intros Hs Hc Hcol key vector occ a finish. unfold add_density.
  rewrite (run_bind _ _ _ _ _ Hs). run_monad. rewrite Hc. run_monad.
  rewrite Hcol. run_monad. fold vector. fold occ. fold a.
  unfold finish, logged, key.
  destruct (_compute_orbitals C a) as [ovs|e]; run_monad.
  - destruct (s_fps s !! 0); run_monad;
      by rewrite ?app_nil_r, <- ?(assoc_L (++)).
  - destruct (fallback_classes (exn_cls e));
      [|by rewrite ?app_nil_r, <- ?(assoc_L (++))].
    destruct (_compute_orbitals_nojit C a); run_monad;
      [|by rewrite ?app_nil_r, <- ?(assoc_L (++))].
    destruct (s_fps s !! 0); run_monad;
      by rewrite ?app_nil_r, <- ?(assoc_L (++)).
Qed.

(** *** Occupations and density *)

Lemma occupied_none u (cells : @array F) :
  Forall (λ v, isclose0 v = true) cells → occupied_labels isclose0 u cells = [].
Proof.
  unfold occupied_labels. generalize (oindex (orbital u)). intros idx Hall.
  revert idx. induction Hall as [|v cells Hv _ IH]; intros [|i idx]; try done.
  simpl. rewrite filter_cons_False by (simpl; congruence). apply IH.
Qed.

Lemma density_no_orbitals (ovs : @matrix F) :
  _compute_density fzero fadd fmul ovs [] = replicate (length ovs) fzero.
Proof. unfold _compute_density. induction ovs as [|row ovs IH]; simpl; by f_equal. Qed.

Lemma orbital_calls_app (l1 l2 : list (@call F)) :
  orbital_calls (l1 ++ l2) = orbital_calls l1 ++ orbital_calls l2.
Proof. apply bind_app. Qed.

(** *** The end of an evaluation *)

Lemma teardown_outcome verbose field t1 inplace replace dens w :
  let r := _teardown_orbital verbose field t1 inplace replace dens w in
  r.1 = Ok (if inplace then None else Some field) ∧
  orbital_calls (log r.2) = orbital_calls (log w) ∧
  if inplace then field_values field `suffix_of` attached (uni r.2)
  else uni r.2 = uni w.
Proof.
  destruct inplace; simpl.
  - rewrite teardown_attaches. simpl. split_and!; [done| |].
    + rewrite orbital_calls_app. simpl. rewrite app_nil_r.
      unfold reported. by destruct verbose.
    + unfold attached. simpl.
      destruct (_field (uni (reported verbose dens t1 w))) as [| |f0]; simpl;
        [done..|]. destruct replace; simpl; [done|]. by apply suffix_app_r.
  - rewrite teardown_returns. simpl. unfold reported. by destruct verbose.
Qed.

(** *** Statements about the container and the evaluators *)

(** C3: a call of the current-density / angular-momentum evaluation in
    which [rcoefs] or [icoefs] is [None] raises the exception whose
    message names both, "Must specify rcoefs and icoefs", and leaves the
    whole world as it was: no collaborator has been called, nothing has
    been printed, the clock has not been read and the universe is
    untouched. *)
Theorem add_orb_ang_mom_needs_both_components
    fps rcoefs icoefs frame_arg orbocc maxes inplace norm verbose w :
  rcoefs = None ∨ icoefs = None →
  add_orb_ang_mom fzero fone C fps rcoefs icoefs frame_arg orbocc maxes inplace norm
    verbose w =
  (Raise (Exn PlainException "Must specify rcoefs and icoefs"), w).
Proof.
  unfold add_orb_ang_mom. by intros [-> | ->]; [|destruct rcoefs].
Qed.

(** C4: attaching a field in place to a universe that already holds the
    field [f0].  With [replace] the universe afterwards holds the new
    field only; without it, it holds the two value lists concatenated and
    the two metadata tables concatenated, so that every row of either
    table is still found at its own position; in both cases the display
    state is marked for refresh.  [Universe.append_field] collects two
    fields in the same way. *)
Theorem attach_second_field verbose f0 f1 t1 dens w :
  _field (uni w) = Holds f0 →
  let replaced := _teardown_orbital verbose f1 t1 true true dens w in
  let collected := _teardown_orbital verbose f1 t1 true false dens w in
  (replaced.1 = Ok None ∧ _field (uni replaced.2) = Holds f1 ∧
   _traits_need_update (uni replaced.2) = true) ∧
  (collected.1 = Ok None ∧
   _field (uni collected.2) =
     Holds (mkField (fdims f0 ++ fdims f1) (field_values f0 ++ field_values f1)) ∧
   _traits_need_update (uni collected.2) = true) ∧
  (∀ i g, fdims f0 !! i = Some g → (fdims f0 ++ fdims f1) !! i = Some g) ∧
  (∀ i, (fdims f0 ++ fdims f1) !! (length (fdims f0) + i) = fdims f1 !! i) ∧
  (∀ f1', _reconstruct_field C f1 None = Ok (Some f1') →
     _field (uni (append_field C f1 None None w).2) =
       Holds (mkField (fdims f0 ++ fdims f1') (field_values f0 ++ field_values f1'))).
Proof.
  intros Hf replaced collected. subst replaced collected.
  rewrite !teardown_attaches. simpl.
  assert (_field (uni (reported verbose dens t1 w)) = Holds f0) as ->
    by (unfold reported; by destruct verbose).
  split_and!; try done.
  - intros i g. apply lookup_app_l_Some.
  - intros i. by rewrite lookup_app_r, Nat.add_sub' by lia.
  - intros f1' Hr. unfold append_field. run_monad. rewrite Hr. run_monad.
    by rewrite Hf.
Qed.

(** C7: [append_field] with an integer [frame] that is not in the index of
    the frame table raises [IndexError], and the attached field and the
    refresh flag of the universe are what they were before the call. *)
Theorem append_field_unknown_frame field (fr : Z) values ft w w1 :
  frame C w = (Ok (Some ft), w1) →
  fr ∉ findex ft →
  ∃ w',
    append_field C field (Some fr) values w =
      (Raise (Exn IndexError
                ("frame " +:+ pretty fr +:+ " does not exist in the universe?")), w') ∧
    _field (uni w') = _field (uni w) ∧
    _traits_need_update (uni w') = _traits_need_update (uni w) ∧
    log w' = log w ∧ out w' = out w.
Proof.
  intros Hfr Hnot. exists w1. unfold append_field, bind.
  rewrite Hfr. rewrite decide_False by done. split; [done|].
  pose proof (frame_keeps_field w) as H. rewrite Hfr in H. simpl in H.
  by destruct H as (H1 & H2 & H3 & H4).
Qed.

(** C9: with [inplace=False], [_teardown_orbital] returns the field and
    leaves the universe as it was, whatever [replace] is: a field that is
    attached stays attached and no call to [add_field] is made.  The
    three evaluators, called with [inplace=False], leave the universe as
    it was as well. *)
Theorem not_inplace_keeps_universe
    verbose field t1 replace dens fps mocoefs rcoefs icoefs vector frame_arg orbocc
    maxes norm irrep w :
  let r := _teardown_orbital verbose field t1 false replace dens w in
  r.1 = Ok (Some field) ∧ uni r.2 = uni w ∧ log r.2 = log w ∧
  uni (add_molecular_orbitals C fps mocoefs vector frame_arg false replace verbose
         irrep w).2 = uni w ∧
  uni (add_density fzero fadd fmul isclose0 C fps mocoefs orbocc false frame_arg norm
         verbose w).2 = uni w ∧
  uni (add_orb_ang_mom fzero fone C fps rcoefs icoefs frame_arg orbocc maxes false norm
         verbose w).2 = uni w.
Proof.
  simpl. rewrite teardown_returns. simpl. split_and!.
  - done.
  - unfold reported. by destruct verbose.
  - unfold reported. by destruct verbose.
  - apply add_molecular_orbitals_keeps_uni.
  - apply add_density_keeps_uni.
  - apply add_orb_ang_mom_keeps_uni.
Qed.


(** C5: when every cell of the occupation column is close to zero, no
    orbital is selected, the orbital routine is asked for an empty
    vector, and the density field that [add_density] returns, or
    attaches, holds the value zero at each grid point, one per row of
    the orbital values. *)
Theorem add_density_all_unoccupied
    fps mocoefs orbocc inplace frame_arg norm verbose w s w1 col cells ovs g :
  _setup_orbital C verbose None fps mocoefs None None w = (Ok s, w1) →
  _check_column (uni w) "orbital" (resolve_orbocc orbocc mocoefs) = Ok col →
  orbital_column (uni w) col = Ok cells →
  Forall (λ v, isclose0 v = true) cells →
  let a := mkOrbArgs (length (s_x s)) (s_bvs s) [] (s_icoefs s) in
  (_compute_orbitals C a = Ok ovs ∨
   ∃ e, _compute_orbitals C a = Raise e ∧ fallback_classes (exn_cls e) = true ∧
        _compute_orbitals_nojit C a = Ok ovs) →
  s_fps s !! 0 = Some g →
  let r := add_density fzero fadd fmul isclose0 C fps mocoefs orbocc inplace frame_arg
             norm verbose w in
  let zeros := replicate (length ovs) fzero in
  if inplace
  then r.1 = Ok None ∧ ∃ before, attached (uni r.2) = before ++ [zeros]
  else r.1 = Ok (Some (mkField [g] [zeros])).
Proof.
  intros Hs Hc Hcol Hclose a Hovs Hg r zeros.
  assert (uni w1 = uni w) as Hu
    by (pose proof (setup_keeps_uni verbose None fps mocoefs None None w) as H;
        by rewrite Hs in H).
  rewrite <- Hu in Hc, Hcol. subst r.
  rewrite (add_density_run _ _ _ _ _ _ _ _ _ _ _ _ Hs Hc Hcol).
  cbv zeta. rewrite occupied_none by done. fold a. rewrite Hg.
  change (loc_column (uni w1) cells []) with (@nil F).
  assert (∀ w2,
    let r := _teardown_orbital verbose (_make_field [zeros] [g]) (s_t1 s) inplace
               false false w2 in
    if inplace then r.1 = Ok None ∧ ∃ before, attached (uni r.2) = before ++ [zeros]
    else r.1 = Ok (Some (mkField [g] [zeros]))) as Hfinish.
  { intros w2. destruct inplace; simpl.
    - rewrite teardown_attaches. simpl. split; [done|]. unfold attached. simpl.
      destruct (_field (uni (reported verbose false (s_t1 s) w2))) as [| |f0]; simpl;
        [by exists []..|by exists (field_values f0)].
    - by rewrite teardown_returns. }
  destruct Hovs as [-> | (e & -> & -> & ->)];
    rewrite density_no_orbitals; apply Hfinish.
Qed.

(** C2, as the code has it: once the set-up has succeeded, both
    [add_molecular_orbitals] and [add_density] call the fast orbital
    routine first; the generic routine is called, once and with the same
    arguments, exactly when the fast one raised [ValueError], [IndexError]
    or [AssertionError]; when the generic routine returns, its values are
    built into the field that is returned or attached and the caller sees
    no exception; when the generic routine raises as well, the caller sees
    the exception of the generic routine. *)
Theorem fallback_once_then_its_own_error
    fps mocoefs vector frame_arg inplace replace verbose irrep w s w1
    dfps dmocoefs dorbocc dinplace dframe dnorm dverbose dw ds dw1 col cells g :
  _setup_orbital C verbose vector fps mocoefs None irrep w = (Ok s, w1) →
  _setup_orbital C dverbose None dfps dmocoefs None None dw = (Ok ds, dw1) →
  _check_column (uni dw1) "orbital" (resolve_orbocc dorbocc dmocoefs) = Ok col →
  orbital_column (uni dw1) col = Ok cells →
  s_fps ds !! 0 = Some g →
  let vector' := occupied_labels isclose0 (uni dw1) cells in
  let occ := loc_column (uni dw1) cells vector' in
  fallback_law C
    (mkOrbArgs (length (s_x s)) (s_bvs s) (s_vector s) (s_icoefs s)) w1
    (add_molecular_orbitals C fps mocoefs vector frame_arg inplace replace verbose
       irrep w)
    (λ ovs, _make_field ovs (s_fps s)) inplace ∧
  fallback_law C
    (mkOrbArgs (length (s_x ds)) (s_bvs ds) vector' (s_icoefs ds)) dw1
    (add_density fzero fadd fmul isclose0 C dfps dmocoefs dorbocc dinplace dframe dnorm
       dverbose dw)
    (λ ovs, _make_field [_compute_density fzero fadd fmul ovs occ] [g]) dinplace.
Proof.
  intros Hs Hds Hc Hcol Hg vector' occ. split.
  - rewrite (add_molecular_orbitals_run _ _ _ _ _ _ _ _ _ _ _ Hs). cbv zeta.
    unfold fallback_law. cbv zeta.
    destruct (_compute_orbitals C _) as [ovs|e].
    + pose proof (teardown_outcome verbose (_make_field ovs (s_fps s)) (s_t1 s)
        inplace replace false
        (logged w1 [CallComputeOrbitals
           (mkOrbArgs (length (s_x s)) (s_bvs s) (s_vector s) (s_icoefs s));
           CallMakeField] [])) as (Hr & Hl & Hu).
      rewrite Hl. split; [|split; [done|]].
      * unfold logged. simpl. by rewrite orbital_calls_app.
      * by destruct inplace.
    + destruct (fallback_classes (exn_cls e)).
      * destruct (_compute_orbitals_nojit C _) as [ovs|e'].
        -- match goal with |- context [_teardown_orbital _ _ _ _ _ _ ?w2] =>
             pose proof (teardown_outcome verbose (_make_field ovs (s_fps s)) (s_t1 s)
               inplace replace false w2) as (Hr & Hl & Hu) end.
           rewrite Hl. split; [|split; [done|]].
           ++ unfold logged. simpl. by rewrite orbital_calls_app.
           ++ by destruct inplace.
        -- split; [|done]. unfold logged. simpl. by rewrite orbital_calls_app.
      * split; [|done]. unfold logged. simpl. by rewrite orbital_calls_app.
  - rewrite (add_density_run _ _ _ _ _ _ _ _ _ _ _ _ Hds Hc Hcol). cbv zeta.
    fold vector' occ. rewrite Hg. unfold fallback_law. cbv zeta.
    destruct (_compute_orbitals C _) as [ovs|e].
    + match goal with |- context [_teardown_orbital ?v ?f ?t ?i ?rp ?d ?w2] =>
        pose proof (teardown_outcome v f t i rp d w2) as (Hr & Hl & Hu) end.
      rewrite Hl. split; [|split; [done|]].
      * unfold logged. simpl. by rewrite orbital_calls_app.
      * by destruct dinplace.
    + destruct (fallback_classes (exn_cls e)).
      * destruct (_compute_orbitals_nojit C _) as [ovs|e'].
        -- match goal with |- context [_teardown_orbital ?v ?f ?t ?i ?rp ?d ?w2] =>
             pose proof (teardown_outcome v f t i rp d w2) as (Hr & Hl & Hu) end.
           rewrite Hl. split; [|split; [done|]].
           ++ unfold logged. simpl. by rewrite orbital_calls_app.
           ++ by destruct dinplace.
        -- split; [|done]. unfold logged. simpl. by rewrite orbital_calls_app.
      * split; [|done]. unfold logged. simpl. by rewrite orbital_calls_app.
Qed.

End EvaluatorFacts.

(** * The exponent generator: the two statements *)

(** C1: for every order [l], [cartesian_gtf_exponents l] returns an array
    in which every row has been written; it has [(l+1)(l+2)/2] rows of
    three entries, no row occurs twice, and a triple of non-negative
    integers is a row exactly when it sums to [l]. *)
Theorem cartesian_gtf_exponents_complete (l : nat) :
  ∃ rows : list Basis.triple,
    Basis.cartesian_gtf_exponents l = Ok (Some <$> rows) ∧
    length rows = ((l + 1) * (l + 2)) `div` 2 ∧
    NoDup rows ∧
    ∀ i j k, (i, j, k) ∈ rows ↔ i + j + k = l.
Proof.
  exists (Basis.visited l). split_and!.
  - apply BasisFacts.exponents_visited.
  - rewrite BasisFacts.visited_triangle, BasisFacts.triangle_length.
    f_equal. lia.
  - apply (BasisFacts.sorted_NoDup Basis.lex_lt); [apply BasisFacts.lex_lt_irrefl|].
    rewrite BasisFacts.visited_triangle. apply BasisFacts.triangle_sorted.
  - apply BasisFacts.elem_of_visited.
Qed.

(** C6: the array that the generator returns holds the triples of
    order [l], all of them and nothing else, [(l+1)(l+2)/2] rows, and
    they come in strictly ascending order of [i], then [j], then [k]:
    every row is below each row after it.  The generator is a function
    of [l] alone, so two calls return the same array. *)
Theorem cartesian_gtf_exponents_ascending (l : nat) :
  ∃ rows : list Basis.triple,
    Basis.cartesian_gtf_exponents l = Ok (Some <$> rows) ∧
    StronglySorted Basis.lex_lt rows ∧
    length rows = ((l + 1) * (l + 2)) `div` 2 ∧
    (∀ i j k, (i, j, k) ∈ rows ↔ i + j + k = l) ∧
    rows = Basis.triangle l.
Proof.
  exists (Basis.visited l). split_and!.
  - apply BasisFacts.exponents_visited.
  - rewrite BasisFacts.visited_triangle. apply BasisFacts.triangle_sorted.
  - rewrite BasisFacts.visited_triangle, BasisFacts.triangle_length.
    f_equal. lia.
  - apply BasisFacts.elem_of_visited.
  - apply BasisFacts.visited_triangle.
Qed.

Example exponents_0 :
  Basis.cartesian_gtf_exponents 0 = Ok [Some (0, 0, 0)].
Proof. reflexivity. Qed.

Example exponents_1 :
  Basis.cartesian_gtf_exponents 1 =
  Ok [Some (0, 0, 1); Some (0, 1, 0); Some (1, 0, 0)].
Proof. reflexivity. Qed.

Example exponents_2 :
  Basis.cartesian_gtf_exponents 2 =
  Ok (Some <$> [(0, 0, 2); (0, 1, 1); (0, 2, 0); (1, 0, 1); (1, 1, 0); (2, 0, 0)]).
Proof. reflexivity. Qed.

(** * The statements on the small universe *)

(** The fast routine raises [ValueError], the generic one [MemoryError]:
    the caller of [add_molecular_orbitals] sees [MemoryError], an
    exception of another class than the one the fast routine raised. *)
Lemma original_error_class_is_lost :
  let C := Toy.collab (Raise Toy.value_error) (Raise Toy.memory_error) in
  let r := add_molecular_orbitals C None None None 0%Z true false true None
             (Toy.start IsNone) in
  _compute_orbitals C (mkOrbArgs 2 Toy.unit2 [0; 1] Toy.unit2) = Raise Toy.value_error ∧
  orbital_calls (log r.2) =
    [CallComputeOrbitals (mkOrbArgs 2 Toy.unit2 [0; 1] Toy.unit2);
     CallComputeOrbitalsNojit (mkOrbArgs 2 Toy.unit2 [0; 1] Toy.unit2)] ∧
  r.1 = Raise Toy.memory_error ∧
  ¬ (∃ e, r.1 = Raise e ∧ exn_cls e = exn_cls Toy.value_error).
Proof.
  simpl. split_and!; [reflexivity..|].
  intros (e & He & Hcls). vm_compute in He. by simplify_eq.
Qed.

Lemma fallback_once_then_its_own_error_witness :
  let C := Toy.collab (Raise Toy.value_error) (Ok Toy.unit2) in
  fallback_law C (mkOrbArgs 2 Toy.unit2 [0; 1] Toy.unit2)
    (Toy.after_setup IsNone true)
    (add_molecular_orbitals C None None None 0%Z false false true None (Toy.start IsNone))
    (λ ovs, _make_field ovs [Toy.grid0]) false ∧
  fallback_law C (mkOrbArgs 2 Toy.unit2 [] Toy.unit2)
    (Toy.after_setup IsNone false)
    (add_density 0%Z Z.add Z.mul Toy.isclose0 C None None None true 0%Z "Nd"%string false
       (Toy.start IsNone))
    (λ ovs, _make_field [_compute_density 0%Z Z.add Z.mul ovs []] [Toy.grid0]) true.
Proof.
  intros C.
  apply (fallback_once_then_its_own_error 0%Z Z.add Z.mul Toy.isclose0 C
    None None None 0%Z false false true None (Toy.start IsNone)
    Toy.setup_result (Toy.after_setup IsNone true)
    None None None true 0%Z "Nd"%string false (Toy.start IsNone)
    Toy.setup_result (Toy.after_setup IsNone false)
    "occupation"%string [0%Z; 0%Z] Toy.grid0); reflexivity.
Defined.

Lemma add_orb_ang_mom_needs_both_components_witness :
  add_orb_ang_mom 0%Z 1%Z (Toy.collab (Ok Toy.unit2) (Ok Toy.unit2)) None
    (Some "lreal"%string) None 0%Z None None true "Nd"%string true (Toy.start IsNone) =
  (Raise (Exn PlainException "Must specify rcoefs and icoefs"), Toy.start IsNone).
Proof.
  apply (add_orb_ang_mom_needs_both_components 0%Z 1%Z). right. reflexivity.
Defined.

Lemma attach_second_field_witness :
  let C := Toy.collab (Ok Toy.unit2) (Ok Toy.unit2) in
  let w := Toy.start (Holds Toy.old_field) in
  _field (uni w) = Holds Toy.old_field ∧
  _field (uni (_teardown_orbital true Toy.new_field 0 true true false w).2) =
    Holds Toy.new_field ∧
  _field (uni (_teardown_orbital true Toy.new_field 0 true false false w).2) =
    Holds (mkField [Toy.grid0; Toy.grid0] [[7%Z; 8%Z]; [1%Z; 2%Z]]) ∧
  _field (uni (append_field C Toy.new_field None None w).2) =
    Holds (mkField [Toy.grid0; Toy.grid0] [[7%Z; 8%Z]; [1%Z; 2%Z]]).
Proof.
  intros C w.
  destruct (attach_second_field C true Toy.old_field Toy.new_field 0 false w)
    as ((_ & Hreplaced & _) & (_ & Hcollected & _) & _ & _ & Happend);
    [reflexivity|].
  split_and!; [reflexivity|exact Hreplaced|exact Hcollected|].
  apply (Happend Toy.new_field). reflexivity.
Defined.

Lemma add_density_all_unoccupied_witness :
  let C := Toy.collab (Raise Toy.value_error) (Ok Toy.unit2) in
  Forall (λ v, Toy.isclose0 v = true) [0%Z; 0%Z] ∧
  (add_density 0%Z Z.add Z.mul Toy.isclose0 C None None None false 0%Z "Nd"%string false
     (Toy.start IsNone)).1 =
  Ok (Some (mkField [Toy.grid0] [[0%Z; 0%Z]])).
Proof.
  intros C.
  assert (Forall (λ v, Toy.isclose0 v = true) [0%Z; 0%Z]) as Hclose
    by (repeat constructor).
  split; [exact Hclose|].
  apply (add_density_all_unoccupied 0%Z Z.add Z.mul Toy.isclose0 C
    None None None false 0%Z "Nd"%string false (Toy.start IsNone)
    Toy.setup_result (Toy.after_setup IsNone false)
    "occupation"%string [0%Z; 0%Z] Toy.unit2 Toy.grid0);
    [reflexivity|reflexivity|reflexivity|exact Hclose| |reflexivity].
  right. exists Toy.value_error. split_and!; reflexivity.
Defined.

Lemma append_field_unknown_frame_witness :
  let C := Toy.collab (Ok Toy.unit2) (Ok Toy.unit2) in
  let w := Toy.start (Holds Toy.old_field) in
  ∃ w',
    append_field C Toy.new_field (Some 5%Z) None w =
      (Raise (Exn IndexError
                ("frame " +:+ pretty 5%Z +:+ " does not exist in the universe?")), w') ∧
    _field (uni w') = Holds Toy.old_field ∧
    _traits_need_update (uni w') = false.
Proof.
  intros C w.
  destruct (append_field_unknown_frame C Toy.new_field 5%Z None
              (mkFrameTable [0%Z]) w w) as (w' & Hraise & Hfield & Htraits & _).
  - reflexivity.
  - apply (bool_decide_unpack _). vm_compute. exact I.
  - exists w'. split_and!; [exact Hraise|exact Hfield|exact Htraits].
Defined.


(** C8, where the code departs from it: with [verbose=False],
    [add_density] writes the fallback notice when the fast routine
    raises [ValueError], and [add_orb_ang_mom] writes the shapes of its
    two coefficient matrices; [add_molecular_orbitals], on the same
    universe and with the same failing fast routine, writes nothing. *)
Theorem quiet_evaluators_still_print :
  let C := Toy.collab (Raise Toy.value_error) (Ok Toy.unit2) in
  out (add_density 0%Z Z.add Z.mul Toy.isclose0 C None None None false 0%Z "Nd"%string
         false (Toy.start IsNone)).2 = [fallback_notice] ∧
  out (add_density 0%Z Z.add Z.mul Toy.isclose0 C None None None false 0%Z "Nd"%string
         true (Toy.start IsNone)).2 =
    [EvaluatingBasis 2; fallback_notice; TimingCompute "orbitals" 1] ∧
  out (add_orb_ang_mom 0%Z 1%Z C None (Some "lreal"%string) (Some "limag"%string) 0%Z
         None None false "Nd"%string false (Toy.start IsNone)).2 =
    [ShapeDtype 2 2; ShapeDtype 2 2] ∧
  out (add_molecular_orbitals C None None None 0%Z false false false None
         (Toy.start IsNone)).2 = [].
Proof. cbv zeta. split_and!; vm_compute; reflexivity. Qed.

(** * More on the exponent generator *)

Module BasisMore.
Import Basis.

Lemma lookup_bind_seq {A} (f : nat → list A) a n i j x :
  i < n → f (a + i) !! j = Some x →
  (seq a n ≫= f) !! (sum_list ((λ i', length (f i')) <$> seq a i) + j) = Some x.
Proof.
  revert a n. induction i as [|i IH]; intros a n Hi Hx.
  - destruct n as [|n]; [lia|]. change (seq a (S n)) with (a :: seq (S a) n).
    rewrite bind_cons. simpl. rewrite Nat.add_0_r in Hx.
    by apply lookup_app_l_Some.
  - destruct n as [|n]; [lia|]. change (seq a (S n)) with (a :: seq (S a) n).
    change (seq a (S i)) with (a :: seq (S a) i).
    rewrite bind_cons, fmap_cons. simpl.
    rewrite lookup_app_r by lia.
    replace (length (f a) + sum_list ((λ i', length (f i')) <$> seq (S a) i) + j
             - length (f a))
      with (sum_list ((λ i', length (f i')) <$> seq (S a) i) + j) by lia.
    apply IH; [lia|]. by replace (S a + i) with (a + S i) by lia.
Qed.

Lemma rows_before l i :
  i ≤ l + 1 →
  sum_list ((λ i', length ((λ j, (i', j, l - i' - j)) <$> seq 0 (l + 1 - i')))
              <$> seq 0 i) = (i * (2 * l + 3 - i)) `div` 2.
Proof.
  intros Hi.
  assert (sum_list ((λ i', length ((λ j, (i', j, l - i' - j)) <$> seq 0 (l + 1 - i')))
                      <$> seq 0 i) * 2 = i * (2 * l + 3 - i)) as H.
  { induction i as [|i IH]; [done|].
    rewrite seq_S, fmap_app, sum_list_with_app. simpl.
    rewrite length_fmap, length_seq. specialize (IH ltac:(lia)). nia. }
  rewrite <- H. by rewrite Nat.div_mul.
Qed.

Lemma triangle_lookup l i j :
  i + j ≤ l → triangle l !! row_index l i j = Some (i, j, l - i - j).
Proof.
  intros Hij. unfold row_index, triangle, range.
  rewrite <- rows_before by lia.
  apply (lookup_bind_seq (λ i', (λ j', (i', j', l - i' - j')) <$> seq 0 (l + 1 - i'))
           0 (l + 1) i j); [lia|].
  simpl. rewrite list_lookup_fmap, lookup_seq_lt by lia. done.
Qed.

Lemma cartesian_ge_spherical l : 2 * l + 1 ≤ ((l + 1 + 1) * (l + 1)) `div` 2.
Proof. apply Nat.div_le_lower_bound; nia. Qed.

Lemma ml_count_from_lmap :
  map_Forall (λ s n, lmap !! s = Some ((n - 1) `div` 2) ∧ n = 2 * ((n - 1) `div` 2) + 1)
    ml_count.
Proof. apply (bool_decide_unpack _). vm_compute. exact I. Qed.

(** *** The generator on integers against the generator on naturals *)

Lemma for_each_sim {A B S S'} (R : S → S' → Prop) (g : A → B) xs
    (body : A → S → result S) (body' : B → S' → result S') s s' :
  R s s' →
  (∀ x t t', R t t' → result_rel R (body x t) (body' (g x) t')) →
  result_rel R (for_each xs body s) (for_each (g <$> xs) body' s').
Proof.
  intros Hs Hbody. revert s s' Hs. induction xs as [|x xs IH]; intros s s' Hs.
  - done.
  - simpl. specialize (Hbody x s s' Hs).
    destruct (body x s) as [t|e], (body' (g x) s') as [t'|e']; simpl in *;
      try done. by apply IH.
Qed.

Lemma store_sim r st st' :
  BasisInt.same_rows st st' →
  result_rel BasisInt.same_rows (store r st) (BasisInt.store (BasisInt.of_nat_row r) st').
Proof.
  intros [Hv Hh]. unfold store, BasisInt.store. rewrite Hv, Hh, length_fmap.
  destruct (decide (h st < length (values st))); simpl; [|done].
  split; simpl; [|done]. by rewrite list_fmap_insert.
Qed.

Lemma int_generator_agrees (l : nat) :
  result_rel (λ arr arr', arr' = fmap (M:=option) BasisInt.of_nat_row <$> arr)
    (cartesian_gtf_exponents l) (BasisInt.cartesian_gtf_exponents (Z.of_nat l)).
Proof.
  unfold cartesian_gtf_exponents, BasisInt.cartesian_gtf_exponents. cbv zeta.
  replace (((Z.of_nat l + 1 + 1) * (Z.of_nat l + 1)) `div` 2)%Z
    with (Z.of_nat (((l + 1 + 1) * (l + 1)) `div` 2))
    by (rewrite Nat2Z.inj_div; f_equal; lia).
  unfold BasisInt.np_empty. rewrite decide_True by lia. rewrite Nat2Z.id.
  unfold BasisInt.range, range.
  replace (Z.to_nat (Z.of_nat l + 1)) with (l + 1) by lia.
  match goal with
  | |- result_rel _ (match ?a with _ => _ end) (match ?b with _ => _ end) =>
      assert (result_rel BasisInt.same_rows a b) as Hsim
  end.
  { apply for_each_sim.
    - split; simpl; [|done]. by rewrite fmap_replicate.
    - intros i t t' Ht. apply for_each_sim; [done|].
      intros j t1 t1' Ht1. apply for_each_sim; [done|].
      intros k t2 t2' Ht2.
      destruct (decide (i + j + k = l)), (decide (Z.of_nat i + Z.of_nat j + Z.of_nat k
                                                   = Z.of_nat l)%Z); try lia.
      + by apply (store_sim (i, j, k)).
      + done. }
  revert Hsim.
  match goal with
  | |- result_rel _ ?a ?b → _ => destruct a as [t|e], b as [t'|e']; simpl; try done
  end.
  by intros [-> _].
Qed.

Lemma consecutive_nonneg (l : Z) : (0 ≤ ((l + 2) * (l + 1)) `div` 2)%Z.
Proof.
  apply Z.div_pos; [|lia].
  destruct (decide (l ≤ -2)%Z).
  - apply Z.mul_nonpos_nonpos; lia.
  - apply Z.mul_nonneg_nonneg; lia.
Qed.

Lemma int_generator_negative (l : Z) :
  (l < 0)%Z →
  BasisInt.cartesian_gtf_exponents l =
  Ok (replicate (Z.to_nat (((l + 2) * (l + 1)) `div` 2)) None).
Proof.
  intros Hl. unfold BasisInt.cartesian_gtf_exponents, BasisInt.np_empty. cbv zeta.
  replace (l + 1 + 1)%Z with (l + 2)%Z by lia.
  rewrite decide_True by apply consecutive_nonneg.
  unfold BasisInt.range. by replace (Z.to_nat (l + 1)) with 0 by lia.
Qed.

End BasisMore.

(** X1: the row [[i, j, l - i - j]] of the array of order [l] is the row
    number [i (2 l + 3 - i) / 2 + j]; so the first row is [[0, 0, l]] and
    the last is [[l, 0, 0]]. *)
Theorem exponent_row_position (l i j : nat) :
  i + j ≤ l →
  ∃ arr,
    Basis.cartesian_gtf_exponents l = Ok arr ∧
    arr !! row_index l i j = Some (Some (i, j, l - i - j)).
Proof.
  intros Hij. eexists. split; [apply BasisFacts.exponents_visited|].
  rewrite list_lookup_fmap, BasisFacts.visited_triangle.
  by rewrite BasisMore.triangle_lookup.
Qed.

Lemma exponent_row_position_witness :
  ∃ arr,
    Basis.cartesian_gtf_exponents 3 = Ok arr ∧
    arr !! row_index 3 1 2 = Some (Some (1, 2, 0)).
Proof. apply (exponent_row_position 3 1 2). lia. Defined.

(** X2: every shell letter of [ml_count] is a key of [lmap]; its count is
    [2 l + 1] for the [l] that [lmap] gives it; and the generator called
    with that [l] returns at least that many rows. *)
Theorem shells_spherical_and_cartesian (s : string) (n : nat) :
  ml_count !! s = Some n →
  ∃ l arr,
    lmap !! s = Some l ∧ n = 2 * l + 1 ∧
    Basis.cartesian_gtf_exponents l = Ok arr ∧ n ≤ length arr.
Proof.
  intros Hs. destruct (BasisMore.ml_count_from_lmap s n Hs) as [Hl Hn].
  eexists _, _. split_and!; [exact Hl|exact Hn|apply BasisFacts.exponents_visited|].
  rewrite length_fmap, BasisFacts.visited_triangle, BasisFacts.triangle_length.
  rewrite Hn at 1. apply BasisMore.cartesian_ge_spherical.
Qed.

Lemma shells_spherical_and_cartesian_witness :
  ∃ l arr,
    lmap !! "d"%string = Some l ∧ 5 = 2 * l + 1 ∧
    Basis.cartesian_gtf_exponents l = Ok arr ∧ 5 ≤ length arr.
Proof. apply (shells_spherical_and_cartesian "d" 5). reflexivity. Defined.

(** X3: on a non-negative Python integer the generator behaves as on the
    natural number: it returns the same rows, every one written. *)
Theorem exponents_of_integer_order (l : nat) :
  result_rel (λ arr arr', arr' = fmap (M:=option) BasisInt.of_nat_row <$> arr)
    (Basis.cartesian_gtf_exponents l) (BasisInt.cartesian_gtf_exponents (Z.of_nat l)) ∧
  ∃ arr, Basis.cartesian_gtf_exponents l = Ok arr ∧ Forall is_Some arr.
Proof.
  split; [apply BasisMore.int_generator_agrees|].
  eexists. split; [apply BasisFacts.exponents_visited|].
  apply Forall_fmap, Forall_true. by eexists.
Qed.

(** X4: on a negative order nothing is written and nothing is raised: the
    generator returns [(l+2)(l+1)/2] rows of uninitialised memory, none
    for [l = -1] and [l = -2], and at least one from [l = -3] down. *)
Theorem exponents_of_negative_order (l : Z) :
  (l < 0)%Z →
  ∃ n,
    BasisInt.cartesian_gtf_exponents l = Ok (replicate n None) ∧
    Z.of_nat n = (((l + 2) * (l + 1)) `div` 2)%Z ∧
    (n = 0 ↔ (-2 ≤ l)%Z).
Proof.
  intros Hl. eexists. split; [by apply BasisMore.int_generator_negative|].
  pose proof (BasisMore.consecutive_nonneg l) as Hn.
  split; [lia|]. split.
  - intros H0. destruct (decide (-2 ≤ l)%Z); [done|].
    assert (1 ≤ ((l + 2) * (l + 1)) `div` 2)%Z
      by (apply Z.div_le_lower_bound; nia). lia.
  - intros H2. assert (l = -1 ∨ l = -2)%Z as [-> | ->] by lia; reflexivity.
Qed.

Lemma exponents_of_negative_order_witness :
  ∃ n,
    BasisInt.cartesian_gtf_exponents (-3) = Ok (replicate n None) ∧
    Z.of_nat n = (((-3 + 2) * (-3 + 1)) `div` 2)%Z ∧
    (n = 0 ↔ (-2 ≤ -3)%Z).
Proof. apply (exponents_of_negative_order (-3)). lia. Defined.

(** * More on the container *)

Section ContainerFacts.
Set Default Proof Using "Type".
Context {F : Type}.
Variable C : @collaborators F.
Implicit Types (w : @world F) (u : @Universe F) (f field : @Field F).

(** What [frame] returns is what [_frame] is bound to afterwards. *)
Lemma frame_returns_binding w r w1 :
  frame C w = (Ok r, w1) → _frame (uni w1) = r.
Proof.
  unfold frame, compute_minimal_frame. run_monad.
  destruct (container_is C (uni w) "_frame"); run_monad; [by intros [= <- <-]|].
  destruct (container_is C (uni w) "_atom"); run_monad; [|by intros [= <- <-]].
  destruct (minimal_frame C (_atom (uni w))); run_monad; [|done].
  by intros [= <- <-].
Qed.

Lemma frame_when_bound w :
  container_is C (uni w) "_frame" = true → frame C w = (Ok (_frame (uni w)), w).
Proof. intros H. unfold frame. run_monad. rewrite H. by run_monad. Qed.

(** What [append_field] does once the frame argument has been dealt
    with, on the field [field'] that goes on. *)
Lemma append_field_no_frame field values w :
  append_field C field None values w =
  match _reconstruct_field C field values with
  | Raise e => (Raise e, w)
  | Ok df =>
      match _field (uni w), df with
      | Missing, _ =>
          (Raise (Exn AttributeError "'Universe' object has no attribute '_field'"), w)
      | IsNone, Some f1 =>
          (Ok tt, mkWorld (set_traits_need_update true (set_field (Holds f1) (uni w)))
                    (out w) (log w) (clock w))
      | IsNone, None =>
          (Ok tt, mkWorld (set_traits_need_update true (set_field IsNone (uni w)))
                    (out w) (log w) (clock w))
      | Holds f0, Some f1 =>
          (Ok tt, mkWorld (set_traits_need_update true
                             (set_field (Holds (concat_fields f0 f1)) (uni w)))
                    (out w) (log w) (clock w))
      | Holds f0, None =>
          (Raise (Exn AttributeError "'NoneType' object has no attribute 'field_values'"),
           w)
      end
  end.
Proof.
  unfold append_field. run_monad.
  destruct (_reconstruct_field C field values) as [[f1|]|e]; run_monad;
    by destruct (_field (uni w)).
Qed.

Lemma append_field_with_frame field fr values w :
  append_field C field (Some fr) values w =
  match frame C w with
  | (Raise e, w1) => (Raise e, w1)
  | (Ok None, w1) =>
      (Raise (Exn AttributeError "'NoneType' object has no attribute 'index'"), w1)
  | (Ok (Some ft), w1) =>
      if decide (fr ∈ findex ft)
      then append_field C (set_field_frame fr field) None values w1
      else (Raise (Exn IndexError
                     ("frame " +:+ pretty fr +:+ " does not exist in the universe?")),
            w1)
  end.
Proof.
  unfold append_field, bind at 1 2 3.
  destruct (frame C w) as [[[ft|]|e] w1]; [|done..].
  destruct (decide (fr ∈ findex ft)); [|done]. by run_monad.
Qed.

(** X5: the table that [frame] has returned is cached: a second read
    returns the same table and leaves the world as the first read left
    it, so the frame is computed from the atoms at most once. *)
Theorem frame_is_cached w ft w1 :
  frame_is_bound C →
  frame C w = (Ok (Some ft), w1) →
  frame C w1 = (Ok (Some ft), w1).
Proof.
  intros His Hfr. apply frame_returns_binding in Hfr.
  rewrite frame_when_bound; [by rewrite Hfr|].
  rewrite His, Hfr. by apply bool_decide_eq_true.
Qed.

(** X6: [len(universe)] reads the world and does not change it.  A
    universe that has atoms but no frame table has length 0; once
    [frame] has been read, its length is the length of the frame table
    computed from the atoms. *)
Theorem len_before_and_after_frame w ft :
  frame_is_bound C →
  _frame (uni w) = None →
  container_is C (uni w) "_atom" = true →
  minimal_frame C (_atom (uni w)) = Ok ft →
  (∀ w0, (__len__ C w0).2 = w0) ∧
  __len__ C w = (Ok 0, w) ∧
  ∃ w1, frame C w = (Ok (Some ft), w1) ∧
        __len__ C w1 = (Ok (length (findex ft)), w1).
Proof.
  intros His Hnone Hatom Hmin. split_and!.
  - intros w0. unfold __len__. run_monad.
    destruct (container_is C (uni w0) "_frame") eqn:Hb; [|done].
    unfold bind. rewrite frame_when_bound by done. by destruct (_frame (uni w0)).
  - unfold __len__. run_monad. rewrite His, Hnone. done.
  - assert (container_is C (uni w) "_frame" = false) as Hb by (by rewrite His, Hnone).
    eexists. split.
    + unfold frame, compute_minimal_frame. run_monad. rewrite Hb, Hatom. run_monad.
      rewrite Hmin. run_monad. done.
    + unfold __len__. run_monad. rewrite His. simpl.
      rewrite frame_when_bound; [done|]. by rewrite His.
Qed.

(** X8: two complete fields appended one after the other to a universe
    whose [_field] is bound: the attached value arrays are the earlier
    ones, then those of the first field, then those of the second. *)
Theorem append_field_twice f1 f2 w :
  _reconstruct_field C f1 None = Ok (Some f1) →
  _reconstruct_field C f2 None = Ok (Some f2) →
  _field (uni w) ≠ Missing →
  ∃ w',
    bind (append_field C f1 None None) (λ _, append_field C f2 None None) w = (Ok tt, w') ∧
    attached (uni w') = attached (uni w) ++ field_values f1 ++ field_values f2 ∧
    _traits_need_update (uni w') = true.
Proof.
  intros H1 H2 Hb. unfold bind. rewrite append_field_no_frame, H1.
  unfold attached.
  destruct (_field (uni w)) as [| |f0] eqn:Hf; [done| |];
    rewrite append_field_no_frame, H2; simpl; eexists; split_and!; try done.
  by rewrite (assoc_L (++)).
Qed.

(** X9: a first field appended with a frame of the index: every row of
    the attached metadata carries that frame, the rows are as many as
    before and the value arrays are the ones given. *)
Theorem append_field_tags_frame field (fr : Z) ft w w1 :
  frame C w = (Ok (Some ft), w1) →
  fr ∈ findex ft →
  _reconstruct_field C (set_field_frame fr field) None =
    Ok (Some (set_field_frame fr field)) →
  _field (uni w) = IsNone →
  ∃ w' f',
    append_field C field (Some fr) None w = (Ok tt, w') ∧
    _field (uni w') = Holds f' ∧
    field_values f' = field_values field ∧
    length (fdims f') = length (fdims field) ∧
    Forall (λ g, gframe g = fr) (fdims f').
Proof.
  intros Hfr Hin Hrec Hnone.
  pose proof (frame_keeps_field C w) as (Hf & _). rewrite Hfr in Hf. simpl in Hf.
  rewrite append_field_with_frame, Hfr, decide_True by done.
  rewrite append_field_no_frame, Hrec, Hf, Hnone.
  eexists _, _. split_and!; [done..| |].
  - simpl. by rewrite length_fmap.
  - simpl. apply Forall_fmap, Forall_true. done.
Qed.


End ContainerFacts.

(** * [append_field], statement by statement *)

Section TableFacts.
Set Default Proof Using "Type".
Context {F : Type}.
Variable C : @collaborators F.
Variable T : @table_ops F.
Implicit Types (w : @world F) (u : @Universe F) (f field : @Field F).

Lemma append_field_steps_with_frame field fr values w :
  append_field_steps C T field (Some fr) values w =
  match frame C w with
  | (Raise e, w1) => (Raise e, w1)
  | (Ok None, w1) =>
      (Raise (Exn AttributeError "'NoneType' object has no attribute 'index'"), w1)
  | (Ok (Some ft), w1) =>
      if decide (fr ∈ findex ft)
      then append_field_steps C T (set_field_frame fr field) None values w1
      else (Raise (Exn IndexError
                     ("frame " +:+ pretty fr +:+ " does not exist in the universe?")),
            w1)
  end.
Proof.
  unfold append_field_steps, bind at 1 2 3.
  destruct (frame C w) as [[[ft|]|e] w1]; [|done..].
  destruct (decide (fr ∈ findex ft)); [|done]. by run_monad.
Qed.

(** With table operations that return and keep the data, the steps are
    [append_field]. *)
Lemma append_field_steps_plain field frame_arg values w :
  plain_tables T →
  append_field_steps C T field frame_arg values w =
  append_field C field frame_arg values w.
Proof.
  intros (Hrev & Hset & Hcat & Hcls).
  assert (∀ fld w0, append_field_steps C T fld None values w0 =
                    append_field C fld None values w0) as Hplain.
  { intros fld w0. rewrite append_field_no_frame. unfold append_field_steps.
    run_monad.
    destruct (_reconstruct_field C fld values) as [[f1|]|e]; run_monad;
      destruct (_field (uni w0)) as [| |f0] eqn:Hslot; run_monad; try done.
    rewrite !Hrev. run_monad. rewrite Hcat. run_monad. rewrite Hcls. run_monad.
    rewrite Hset. run_monad. done. }
  destruct frame_arg as [fr|]; [|apply Hplain].
  rewrite append_field_steps_with_frame, append_field_with_frame.
  destruct (frame C w) as [[[ft|]|e] w1]; [|done..].
  destruct (decide (fr ∈ findex ft)); [apply Hplain|done].
Qed.


End TableFacts.

(** The steps on the small universe, with a [_set_categories] that
    raises: the caller gets the exception, the refresh flag is not set,
    and the universe already holds the concatenated field. *)
Example append_field_not_atomic :
  let r := append_field_steps (Toy.collab (Ok Toy.unit2) (Ok Toy.unit2))
             ToyTables.failing_set_categories Toy.new_field None None
             (Toy.start (Holds Toy.old_field)) in
  r.1 = Raise ToyTables.type_error ∧
  _traits_need_update (uni r.2) = false ∧
  _field (uni r.2) =
    Holds (mkField [Toy.grid0; Toy.grid0] [[7%Z; 8%Z]; [1%Z; 2%Z]]).
Proof. cbv zeta. split_and!; reflexivity. Qed.

(** * More on the evaluators *)

Section EvaluatorMore.
Set Default Proof Using "Type".
Context {F : Type}.
Variables (fzero fone : F) (fadd fmul : F → F → F) (isclose0 : F → bool).
Variable C : @collaborators F.
Implicit Types (w : @world F) (u : @Universe F) (f field : @Field F).
Implicit Types (P : @line → Prop) (Q : @call F → Prop).

(** *** What a computation may print and call *)

Lemma emits_bind {A B} P Q (m : @M F A) (k : A → @M F B) :
  emits P Q m → (∀ a, emits P Q (k a)) → emits P Q (bind m k).
Proof.
  intros Hm Hk w. unfold bind. destruct (Hm w) as (ls & cs & Ho & Hl & HP & HQ).
  destruct (m w) as [[a|e] w']; simpl in *; [|by exists ls, cs].
  destruct (Hk a w') as (ls' & cs' & Ho' & Hl' & HP' & HQ').
  exists (ls ++ ls'), (cs ++ cs'). rewrite Ho', Hl', Ho, Hl, !(assoc_L (++)).
  split_and!; try done; by apply Forall_app.
Qed.

Lemma emits_try {A} P Q (m : @M F A) handled (handler : exn → @M F A) :
  emits P Q m → (∀ e, emits P Q (handler e)) → emits P Q (try_except m handled handler).
Proof.
  intros Hm Hh w. unfold try_except. destruct (Hm w) as (ls & cs & Ho & Hl & HP & HQ).
  destruct (m w) as [[a|e] w']; simpl in *; [by exists ls, cs|].
  destruct (handled (exn_cls e)); [|by exists ls, cs].
  destruct (Hh e w') as (ls' & cs' & Ho' & Hl' & HP' & HQ').
  exists (ls ++ ls'), (cs ++ cs'). rewrite Ho', Hl', Ho, Hl, !(assoc_L (++)).
  split_and!; try done; by apply Forall_app.
Qed.

Lemma emits_nothing {A} P Q (m : @M F A) :
  (∀ w, out (m w).2 = out w ∧ log (m w).2 = log w) → emits P Q m.
Proof.
  intros H w. exists [], []. destruct (H w) as [-> ->].
  by rewrite !app_nil_r.
Qed.

Lemma emits_ret {A} P Q (a : A) : emits P Q (@ret F A a).
Proof. by apply emits_nothing. Qed.
Lemma emits_raise {A} P Q e : emits P Q (@raise F A e).
Proof. by apply emits_nothing. Qed.
Lemma emits_lift {A} P Q (r : result A) : emits P Q (@lift F A r).
Proof. by apply emits_nothing. Qed.
Lemma emits_now P Q : emits P Q (@datetime_now F).
Proof. by apply emits_nothing. Qed.
Lemma emits_get P Q : emits P Q (@get_uni F).
Proof. by apply emits_nothing. Qed.
Lemma emits_modify P Q g : emits P Q (@modify_uni F g).
Proof. by apply emits_nothing. Qed.
Lemma emits_unless P Q (m : @M F unit) : emits P Q (when false m).
Proof. by apply emits_nothing. Qed.
Lemma emits_when P Q b (m : @M F unit) : emits P Q m → emits P Q (when b m).
Proof. destruct b; [done|]. intros _. by apply emits_nothing. Qed.
Lemma emits_called {A} P Q c (r : result A) : Q c → emits P Q (@called F A c r).
Proof.
  intros Hc w. exists [], [c]. simpl. rewrite app_nil_r.
  split_and!; try done. by constructor.
Qed.
Lemma emits_print P Q l : P l → emits P Q (@print F l).
Proof.
  intros Hl w. exists [l], []. simpl. rewrite app_nil_r.
  split_and!; try done. by constructor.
Qed.

Ltac emits :=
  repeat first
    [ apply emits_ret | apply emits_raise | apply emits_lift
    | apply emits_now | apply emits_get | apply emits_modify
    | apply emits_unless | apply emits_when
    | apply emits_called; [by simpl]
    | apply emits_print; [by simpl]
    | apply emits_bind; [|intros ?]
    | apply emits_try; [|intros ?]
    | match goal with
      | |- emits _ _ (match ?x with _ => _ end) => destruct x
      end ].

Lemma setup_emits verbose vector fps icoefs jcoefs irrep :
  emits not_density_label not_orbital_call
    (_setup_orbital C verbose vector fps icoefs jcoefs irrep) ∧
  emits not_compute_timing not_orbital_call
    (_setup_orbital C verbose vector fps icoefs jcoefs irrep).
Proof. split; unfold _setup_orbital; emits. Qed.

(** X11: [add_orb_ang_mom] has no fallback and reports no compute
    time: whatever its arguments and however it ends, it calls neither of
    the two orbital routines, and it prints no timing line of
    [_teardown_orbital], with [verbose=True] as well. *)
Theorem add_orb_ang_mom_no_fallback_no_compute_timing
    fps rcoefs icoefs frame_arg orbocc maxes inplace norm verbose :
  emits not_compute_timing not_orbital_call
    (add_orb_ang_mom fzero fone C fps rcoefs icoefs frame_arg orbocc maxes inplace norm
       verbose).
Proof.
  unfold add_orb_ang_mom, print_shape, _teardown_orbital, add_field.
  emits; apply setup_emits.
Qed.

(** X12: no evaluator ever prints a timing line labelled 'density ':
    [add_density] too reports its time under 'orbitals'. *)
Theorem evaluators_never_label_density
    fps mocoefs rcoefs icoefs vector frame_arg orbocc maxes inplace replace norm verbose
    irrep :
  emits not_density_label (λ _, True)
    (add_molecular_orbitals C fps mocoefs vector frame_arg inplace replace verbose irrep) ∧
  emits not_density_label (λ _, True)
    (add_density fzero fadd fmul isclose0 C fps mocoefs orbocc inplace frame_arg norm
       verbose) ∧
  emits not_density_label (λ _, True)
    (add_orb_ang_mom fzero fone C fps rcoefs icoefs frame_arg orbocc maxes inplace norm
       verbose).
Proof.
  split_and!.
  - unfold add_molecular_orbitals, _setup_orbital, _teardown_orbital, add_field,
      fallback_notice. emits.
  - unfold add_density, _setup_orbital, _teardown_orbital, add_field, fallback_notice.
    emits.
  - unfold add_orb_ang_mom, print_shape, _setup_orbital, _teardown_orbital, add_field.
    emits.
Qed.

(** *** The set-up, when it succeeds *)

Ltac crunch :=
  repeat (run_monad;
          match goal with
          | |- context [match ?x with _ => _ end] => destruct x eqn:?
          end);
  run_monad.

Lemma setup_success verbose vector fps icoefs jcoefs irrep w s w1 :
  _setup_orbital C verbose vector fps icoefs jcoefs irrep w = (Ok s, w1) →
  s_t1 s = clock w ∧ clock w1 = S (clock w) ∧ uni w1 = uni w ∧
  (s_jcoefs s = None ↔ jcoefs = None) ∧
  (∃ nbf, out w1 = out w ++ (if verbose then [EvaluatingBasis nbf] else [])) ∧
  ∃ col tail,
    log w1 =
      log w ++ CallLenBasis ::
        match irrep with Some ir => [CallIrrepCount ir] | None => [] end ++
        [CallDetermineVector; CallDetermineFps (length (s_vector s)); CallGrid;
         CallEvaluate irrep verbose; CallCheckColumn "current_momatrix" icoefs;
         CallSquare col irrep] ++ tail ∧
    match jcoefs with
    | None => tail = []
    | Some _ =>
        ∃ col', tail = [CallCheckColumn "current_momatrix" jcoefs; CallSquare col' None]
    end.
Proof.
  unfold _setup_orbital. crunch; intros ?; simplify_eq/=;
    rewrite <- ?(assoc_L (++)); simpl.
  all: split_and!; try done.
  all: try (by eexists).
  all: try (exists 0; by rewrite app_nil_r).
  all: eexists _, _; (split; [reflexivity|]); try done; by eexists.
Qed.

(** *** Columns of the orbital table *)

Lemma orbital_column_missing u name :
  name ∉ (ocolumns (orbital u)).*1 →
  orbital_column u name = Raise (Exn KeyError name).
Proof.
  intros Hno. unfold orbital_column.
  destruct (list_find _ _) as [[i c]|] eqn:Hfind; [|done].
  apply list_find_Some in Hfind as (Hc & Hname & _). destruct Hno.
  rewrite <- Hname. apply list_elem_of_fmap. exists c. split; [done|].
  by eapply list_elem_of_lookup_2.
Qed.

(** X14: [add_orb_ang_mom] without [orbocc] reads the occupations from
    the column of the orbital table that is named like [rcoefs].  When
    the orbital table has no such column, the call raises [KeyError]
    with that name once the set-up is done: no derivative of the basis
    functions has been evaluated and the universe is untouched. *)
Theorem add_orb_ang_mom_occupation_column_missing
    fps rc ic frame_arg maxes inplace norm verbose w s w1 :
  _setup_orbital C verbose None fps (Some rc) (Some ic) None w = (Ok s, w1) →
  rc ∉ (ocolumns (orbital (uni w))).*1 →
  let r := add_orb_ang_mom fzero fone C fps (Some rc) (Some ic) frame_arg None maxes
             inplace norm verbose w in
  r.1 = Raise (Exn KeyError rc) ∧ log r.2 = log w1 ∧ uni r.2 = uni w.
Proof.
  intros Hs Hno r. subst r.
  destruct (setup_success _ _ _ _ _ _ _ _ _ Hs) as (_ & _ & Hu & Hj & _).
  unfold add_orb_ang_mom. rewrite (run_bind _ _ _ _ _ Hs).
  destruct (s_jcoefs s) as [jc|]; [|by destruct Hj as [Hj _]; specialize (Hj eq_refl)].
  rewrite <- Hu in Hno.
  destruct maxes as [m|], verbose; run_monad;
    rewrite (orbital_column_missing _ _ Hno); by run_monad.
Qed.

(** *** The occupation vector of [add_density] *)

Lemma filter_none {A} (P : A → Prop) `{!∀ x, Decision (P x)} (l : list A) :
  (∀ x, x ∈ l → ¬ P x) → filter P l = [].
Proof.
  induction l as [|x l IH]; intros Hno; [done|].
  rewrite filter_cons_False by (apply Hno; by left).
  apply IH. intros y Hy. apply Hno. by right.
Qed.

Lemma filter_label_unique (rows : list (nat * F)) v c :
  NoDup rows.*1 → (v, c) ∈ rows →
  filter (λ p, p.1 = v) rows = [(v, c)].
Proof.
  induction rows as [|[v' c'] rows IH]; intros Hnd Hin; [by apply elem_of_nil in Hin|].
  simpl in Hnd. apply NoDup_cons in Hnd as [Hfresh Hnd].
  apply elem_of_cons in Hin as [[= <- <-]|Hin].
  - rewrite filter_cons_True by done. f_equal.
    apply filter_none. intros [v1 c1] H1 Hv. simpl in Hv. subst v1.
    apply Hfresh. apply list_elem_of_fmap. by exists (v, c1).
  - rewrite filter_cons_False; [by apply IH|].
    simpl. intros ->. apply Hfresh. apply list_elem_of_fmap. by exists (v, c).
Qed.

Lemma loc_of_rows (rows sub : list (nat * F)) :
  NoDup rows.*1 → (∀ p, p ∈ sub → p ∈ rows) →
  (sub.*1 ≫= λ v, (filter (λ p, p.1 = v) rows).*2) = sub.*2.
Proof.
  intros Hnd. induction sub as [|[v c] sub IH]; intros Hsub; [done|].
  rewrite !fmap_cons, bind_cons. simpl.
  rewrite (filter_label_unique rows v c) by (try done; apply Hsub; by left).
  simpl. f_equal. apply IH. intros p Hp. apply Hsub. by right.
Qed.

(** X15: in [add_density], on an orbital table with distinct index
    labels, the occupation vector read back through [.loc] is the column
    without its cells close to zero, in table order; it has one entry
    per selected orbital, and no entry is close to zero. *)
Theorem occupations_follow_selected_orbitals u (col : @array F) :
  NoDup (oindex (orbital u)) →
  length (oindex (orbital u)) = length col →
  let vector := occupied_labels isclose0 u col in
  let occ := loc_column u col vector in
  occ = filter (λ v, isclose0 v = false) col ∧
  length occ = length vector ∧
  Forall (λ v, isclose0 v = false) occ.
Proof.
  intros Hnd Hlen vector occ.
  assert (occ = (filter (λ p : nat * F, isclose0 p.2 = false)
                   (zip (oindex (orbital u)) col)).*2) as Hocc.
  { subst occ vector. unfold loc_column, occupied_labels. apply loc_of_rows.
    - by rewrite fst_zip by lia.
    - intros p Hp. by apply list_elem_of_filter in Hp as [_ Hp]. }
  assert (∀ (idx : list nat) (cells : list F), length idx = length cells →
    (filter (λ p : nat * F, isclose0 p.2 = false) (zip idx cells)).*2 =
    filter (λ v, isclose0 v = false) cells) as Hsnd.
  { induction idx as [|i idx IH]; intros [|c cells] Hl; simplify_eq/=; [done|].
    destruct (decide (isclose0 c = false)).
    - rewrite !filter_cons_True by done. simpl. f_equal. by apply IH.
    - rewrite !filter_cons_False by done. by apply IH. }
  split_and!.
  - by rewrite Hocc, Hsnd.
  - rewrite Hocc. subst vector. unfold occupied_labels. by rewrite !length_fmap.
  - rewrite Hocc, Hsnd by done. apply Forall_forall. intros v Hv.
    by apply list_elem_of_filter in Hv as [Hv _].
Qed.

End EvaluatorMore.

(** * The further statements on the small universe *)

Lemma frame_is_cached_witness :
  let C := Toy.collab (Ok Toy.unit2) (Ok Toy.unit2) in
  let w := mkWorld (mkUniverse None (Some []) IsNone false Toy.occupations []) [] [] 0 in
  let w1 := mkWorld (mkUniverse (Some (mkFrameTable [0%Z])) (Some []) IsNone false
                       Toy.occupations []) [] [] 0 in
  frame C w = (Ok (Some (mkFrameTable [0%Z])), w1) ∧
  frame C w1 = (Ok (Some (mkFrameTable [0%Z])), w1).
Proof.
  intros C w w1. split; [reflexivity|].
  apply (frame_is_cached C w (mkFrameTable [0%Z]) w1).
  - intros u. reflexivity.
  - reflexivity.
Defined.

Lemma len_before_and_after_frame_witness :
  let C := Toy.collab (Ok Toy.unit2) (Ok Toy.unit2) in
  let w := mkWorld (mkUniverse None (Some []) IsNone false Toy.occupations []) [] [] 0 in
  __len__ C w = (Ok 0, w) ∧
  ∃ w1, frame C w = (Ok (Some (mkFrameTable [0%Z])), w1) ∧ __len__ C w1 = (Ok 1, w1).
Proof.
  intros C w.
  destruct (len_before_and_after_frame C w (mkFrameTable [0%Z]))
    as (_ & Hzero & Hone).
  - intros u. reflexivity.
  - reflexivity.
  - reflexivity.
  - reflexivity.
  - split; [exact Hzero|exact Hone].
Defined.

Lemma append_field_twice_witness :
  let C := Toy.collab (Ok Toy.unit2) (Ok Toy.unit2) in
  ∃ w',
    bind (append_field C Toy.old_field None None)
         (λ _, append_field C Toy.new_field None None) (Toy.start IsNone) = (Ok tt, w') ∧
    attached (uni w') = [] ++ [[7%Z; 8%Z]] ++ [[1%Z; 2%Z]] ∧
    _traits_need_update (uni w') = true.
Proof.
  intros C.
  apply (append_field_twice C Toy.old_field Toy.new_field (Toy.start IsNone));
    [reflexivity|reflexivity|]. simpl. discriminate.
Defined.

Lemma append_field_tags_frame_witness :
  let C := Toy.collab (Ok Toy.unit2) (Ok Toy.unit2) in
  ∃ w' f',
    append_field C Toy.new_field (Some 0%Z) None (Toy.start IsNone) = (Ok tt, w') ∧
    _field (uni w') = Holds f' ∧
    field_values f' = [[1%Z; 2%Z]] ∧
    length (fdims f') = 1 ∧
    Forall (λ g, gframe g = 0%Z) (fdims f').
Proof.
  intros C.
  apply (append_field_tags_frame C Toy.new_field 0%Z (mkFrameTable [0%Z])
           (Toy.start IsNone) (Toy.start IsNone)).
  - reflexivity.
  - apply (bool_decide_unpack _). vm_compute. exact I.
  - reflexivity.
  - reflexivity.
Defined.


Lemma add_orb_ang_mom_occupation_column_missing_witness :
  let C := Toy.collab (Ok Toy.unit2) (Ok Toy.unit2) in
  (add_orb_ang_mom 0%Z 1%Z C None (Some "coef"%string) (Some "limag"%string) 0%Z None
     None true "Nd"%string false (Toy.start IsNone)).1 =
  Raise (Exn KeyError "coef").
Proof.
  intros C.
  destruct (add_orb_ang_mom_occupation_column_missing 0%Z 1%Z C
              None "coef"%string "limag"%string 0%Z None true "Nd"%string false
              (Toy.start IsNone)
              (mkSetup 0 [0; 1] [Toy.grid0] [0%Z; 1%Z] [0%Z; 0%Z] [0%Z; 0%Z]
                 Toy.unit2 Toy.unit2 (Some Toy.unit2))
              (mkWorld (Toy.universe IsNone) []
                 [CallLenBasis; CallDetermineVector; CallDetermineFps 2; CallGrid;
                  CallEvaluate None false;
                  CallCheckColumn "current_momatrix" (Some "coef"%string);
                  CallSquare "coef" None;
                  CallCheckColumn "current_momatrix" (Some "limag"%string);
                  CallSquare "limag" None] 1))
    as (Hr & _).
  - reflexivity.
  - apply (bool_decide_unpack _). vm_compute. exact I.
  - exact Hr.
Defined.

Lemma occupations_follow_selected_orbitals_witness :
  let u := Toy.universe IsNone in
  let vector := occupied_labels Toy.isclose0 u [2%Z; 0%Z] in
  let occ := loc_column u [2%Z; 0%Z] vector in
  occ = filter (λ v, Toy.isclose0 v = false) [2%Z; 0%Z] ∧
  length occ = length vector ∧
  Forall (λ v, Toy.isclose0 v = false) occ.
Proof.
  apply (occupations_follow_selected_orbitals Toy.isclose0 (Toy.universe IsNone)
           [2%Z; 0%Z]).
  - apply (bool_decide_unpack _). vm_compute. exact I.
  - reflexivity.
Defined.
